(** * Thermostat.py: a shallow embedding of the smart-thermostat control loop

    The development follows [src/Thermostat.py]: the AHT20 sensor read, the
    three-state machine (OFF / HEAT / COOL), the two PWM LED channels, the
    16x2 display, the UART telemetry line and the polling loop [run].

    Data are modelled as the program has them.

    - Python [int] is [Z]; bit operations are [Z.land], [Z.lor], [Z.shiftl],
      [Z.shiftr].
    - A Python [float] is an IEEE-754 binary64 value: it is a [spec_float]
      and every arithmetic step is the correctly rounded operation of the
      Standard Library's [SpecFloat] with [prec = 53] and [emax = 1024].
      [float("nan")] is [S754_nan].  This holds for the temperature and for
      the clock alike: the readings of [time.time()] and the two stored time
      stamps are floats, [now - last] is the binary64 difference and
      [>= PERIOD] the comparison of floats.
    - Python exceptions are the [Raise] outcome of a small state-and-error
      monad over the [Thermostat] object and the trace of device I/O.
    - The devices (gpiozero's [PWMLED], the character display, the serial
      port, the I2C bus) are not code of this program; they are modelled by
      the interface they offer.  [PWMLED] offers [on], [off], [toggle],
      [blink], [pulse], [close] and the property [value]; it has no
      attribute [stop], so the program's calls [self.red.stop()] and
      [self.blue.stop()] raise [AttributeError].  The failures the program
      handles are modelled: a failing sensor transaction and a failing
      serial write.  Writes to the LEDs and to the display are taken to
      succeed.  Console logging ([print]) is not modelled.
    - A loop iteration and a call of a button handler are each one atomic
      step; the handlers are called by gpiozero, so what a handler raises
      does not reach the loop.  [KeyboardInterrupt] arrives between two
      iterations. *)

From Stdlib Require Import ZArith QArith Qabs Bool String Ascii List Lia Lqa.
From Stdlib Require Import SpecFloat DecimalString.
Import ListNotations.

Open Scope string_scope.
Open Scope Z_scope.

(** ** Python values *)

(** Exceptions the modelled code can raise (all are subclasses of
    [Exception], so a bare [except Exception] catches each of them). *)
Variant exn : Type :=
| OSError
| RuntimeError (msg : string)
| IndexError
| KeyError
| AttributeError.

Variant result (A : Type) : Type :=
| Ok (a : A)
| Raise (e : exn).
Arguments Ok {A} a.
Arguments Raise {A} e.

(** [str(z)] for a Python int: decimal digits, with a minus sign when
    negative. *)
Definition str_of_int (z : Z) : string := NilZero.string_of_int (Z.to_int z).

(** *** binary64 floats *)

Module Float.

Definition prec : Z := 53.
Definition emax : Z := 1024.

Definition float : Type := spec_float.

(** [float(z)] for a Python int (exact below 2^53, round-to-nearest-even
    above). *)
Definition of_int (z : Z) : float := binary_normalize prec emax z 0 false.

Definition mul : float -> float -> float := SFmul prec emax.
Definition div : float -> float -> float := SFdiv prec emax.
Definition add : float -> float -> float := SFadd prec emax.
Definition sub : float -> float -> float := SFsub prec emax.

Definition nan : float := S754_nan.

(** [math.isnan] *)
Definition isnan (x : float) : bool :=
  match x with S754_nan => true | _ => false end.

Definition is_finite (x : float) : bool :=
  match x with S754_zero _ | S754_finite _ _ _ => true | _ => false end.

(** Python compares a float with an int by their exact values: no
    conversion of the int to a float takes place.  [None] is the unordered
    outcome (NaN). *)
Definition cmp_int (x : float) (z : Z) : option comparison :=
  match x with
  | S754_nan => None
  | S754_infinity s => Some (if s then Lt else Gt)
  | S754_zero _ => Some (0 ?= z)
  | S754_finite s m e =>
      let sm := cond_Zopp s (Zpos m) in
      Some match e with
           | Zneg p => sm ?= z * Z.pow_pos 2 p
           | _ => sm * 2 ^ e ?= z
           end
  end.

(** [0.0] *)
Definition zero : float := S754_zero false.

(** [x >= y] on floats; [False] when either is NaN. *)
Definition ge (x y : float) : bool := SFleb y x.

(** A value that binary64 has: the mantissa of a finite one is that of a
    normal or of a subnormal number. *)
Definition valid (x : float) : bool := valid_binary prec emax x.

(** [x < z] and [x > z] for a float [x] and an int [z] *)
Definition lt_int (x : float) (z : Z) : bool :=
  match cmp_int x z with Some Lt => true | _ => false end.

Definition gt_int (x : float) (z : Z) : bool :=
  match cmp_int x z with Some Gt => true | _ => false end.

(** The exact value of a finite float. *)
Definition to_Q (x : float) : Q :=
  match x with
  | S754_finite s m e =>
      let sm := cond_Zopp s (Zpos m) in
      match e with
      | Zneg p => sm # Pos.pow 2 p
      | _ => inject_Z (sm * 2 ^ e)
      end
  | _ => 0%Q
  end.

(** The order between a float and an integer on the extended real line;
    NaN is unordered. *)
Definition Below (x : float) (z : Z) : Prop :=
  match x with
  | S754_nan => False
  | S754_infinity s => s = true
  | _ => (to_Q x < inject_Z z)%Q
  end.

Definition Above (x : float) (z : Z) : Prop :=
  match x with
  | S754_nan => False
  | S754_infinity s => s = false
  | _ => (inject_Z z < to_Q x)%Q
  end.

Definition AtMost (x : float) (z : Z) : Prop :=
  match x with
  | S754_nan => False
  | S754_infinity s => s = true
  | _ => (to_Q x <= inject_Z z)%Q
  end.

Definition AtLeast (x : float) (z : Z) : Prop :=
  match x with
  | S754_nan => False
  | S754_infinity s => s = false
  | _ => (inject_Z z <= to_Q x)%Q
  end.

Definition Equals (x : float) (z : Z) : Prop :=
  match x with
  | S754_nan | S754_infinity _ => False
  | _ => (to_Q x == inject_Z z)%Q
  end.

(** Rounding of the rational [p / q] ([q > 0]) to the nearest integer, ties
    to even. *)
Definition round_half_even (p q : Z) : Z :=
  let d := p / q in
  let r := p mod q in
  match 2 * r ?= q with
  | Lt => d
  | Gt => d + 1
  | Eq => if Z.even d then d else d + 1
  end.

(** The magnitude of [x] in tenths, correctly rounded: the digits that
    [format(x, ".1f")] prints. *)
Definition tenths (m : positive) (e : Z) : Z :=
  match e with
  | Zneg p => round_half_even (Zpos m * 10) (Z.pow_pos 2 p)
  | _ => Zpos m * 2 ^ e * 10
  end.

(** [format(x, ".1f")] *)
Definition format_1f (x : float) : string :=
  match x with
  | S754_nan => "nan"
  | S754_infinity s => if s then "-inf" else "inf"
  | S754_zero s => if s then "-0.0" else "0.0"
  | S754_finite s m e =>
      let t := tenths m e in
      (if s then "-" else "") ++ str_of_int (t / 10) ++ "."
        ++ str_of_int (t mod 10)
  end.

End Float.

(** *** strings *)

Fixpoint spaces (n : nat) : string :=
  match n with
  | O => ""
  | S k => String " " (spaces k)
  end.

(** The one-character string of a line feed, Python's ["\n"]. *)
Definition newline : string := String (ascii_of_nat 10) "".

(** [s[:n]] *)
Definition str_take (n : nat) (s : string) : string := substring 0 n s.

(** [s.ljust(n)] *)
Definition ljust (n : nat) (s : string) : string :=
  s ++ spaces (n - String.length s).

(** [s.rjust(n)], the alignment of [format(x, ">3d")] and of a numeric
    field width such as [5.1f] *)
Definition rjust (n : nat) (s : string) : string :=
  spaces (n - String.length s) ++ s.

(** [l[i]] on a Python list: negative indices count from the end, anything
    outside raises [IndexError]. *)
Definition py_getitem {A : Type} (l : list A) (i : Z) : result A :=
  let n := Z.of_nat (List.length l) in
  let j := if i <? 0 then i + n else i in
  if (0 <=? j) && (j <? n)
  then match nth_error l (Z.to_nat j) with
       | Some x => Ok x
       | None => Raise IndexError
       end
  else Raise IndexError.


(** ** Configuration constants *)

Definition LCD_COLS : nat := 16.

Definition SETPOINT_F_DEFAULT : Z := 72.

(** [2.0], [30.0] and [1.0] *)
Definition LCD_ALT_PERIOD : Float.float := Float.of_int 2.
Definition UART_PERIOD : Float.float := Float.of_int 30.
Definition FADE_TIME : Float.float := Float.of_int 1.

Definition OFF : string := "off".
Definition HEAT : string := "heat".
Definition COOL : string := "cool".
Definition STATE_ORDER : list string := [OFF; HEAT; COOL].

(** ** Devices *)

(** A PWM LED channel of gpiozero, by the drive the program gives it:
    [off()], the assignment [value = 1.0] and
    [pulse(fade_in_time, fade_out_time, n=None, background=True)].  [off()]
    and the assignment to [value] set a steady level, which ends a running
    fade. *)
Variant PWMLED : Type :=
| Off
| SolidOn
| Fade (fade_in_time fade_out_time : Float.float).

Definition led_off (_ : PWMLED) : PWMLED := Off.
Definition led_value_1 (_ : PWMLED) : PWMLED := SolidOn.
Definition led_pulse (fade_in_time fade_out_time : Float.float) (_ : PWMLED)
  : PWMLED :=
  Fade fade_in_time fade_out_time.

(** [led.stop()]: [PWMLED] has no attribute [stop] (nor do its base classes
    [PWMOutputDevice] and [OutputDevice]), so the attribute lookup raises
    [AttributeError] and the channel is left as it is. *)
Definition led_stop (_ : PWMLED) : result PWMLED := Raise AttributeError.

(** The handles that may be absent ([None]) after start-up. *)
Variant CharLCD : Type := CharLCD_PCF8574.
Variant Serial : Type := Serial_port.

(** Device I/O performed by the program, in program order. *)
Variant io : Type :=
| lcd_home
| lcd_write_string (s : string)
| lcd_crlf
| lcd_clear
| ser_write (msg : string) (ok : bool)
| ser_close
| bus_close.

(** What one transaction with the sensor yields: the trigger write
    [write_i2c_block_data] fails, the read [i2c_rdwr] fails, or the read
    hands back a list of bytes. *)
Variant i2c_outcome : Type :=
| WriteFault
| RdwrFault
| RdwrData (data : list Z).

(** What the outside world supplies to one loop iteration: the sensor
    transaction, the reading of [time.time()], the text of
    [datetime.now().strftime("%m/%d %H:%M:%S")] and whether a write on the
    serial port would succeed. *)
Record Env : Type := {
  i2c : i2c_outcome;
  time_time : Float.float;
  strftime : string;
  uart_ok : bool
}.

(** ** The Thermostat object *)

Record Thermostat : Type := {
  red : PWMLED;
  blue : PWMLED;
  lcd : option CharLCD;
  ser : option Serial;
  state_idx : Z;
  setpoint_f : Z;
  _last_uart : Float.float;
  _last_alt : Float.float;
  _alt_flag : bool
}.

Definition set_red (v : PWMLED) (t : Thermostat) : Thermostat :=
  {| red := v; blue := blue t; lcd := lcd t; ser := ser t;
     state_idx := state_idx t; setpoint_f := setpoint_f t;
     _last_uart := _last_uart t; _last_alt := _last_alt t;
     _alt_flag := _alt_flag t |}.

Definition set_blue (v : PWMLED) (t : Thermostat) : Thermostat :=
  {| red := red t; blue := v; lcd := lcd t; ser := ser t;
     state_idx := state_idx t; setpoint_f := setpoint_f t;
     _last_uart := _last_uart t; _last_alt := _last_alt t;
     _alt_flag := _alt_flag t |}.

Definition set_state_idx (v : Z) (t : Thermostat) : Thermostat :=
  {| red := red t; blue := blue t; lcd := lcd t; ser := ser t;
     state_idx := v; setpoint_f := setpoint_f t;
     _last_uart := _last_uart t; _last_alt := _last_alt t;
     _alt_flag := _alt_flag t |}.

Definition set_setpoint_f (v : Z) (t : Thermostat) : Thermostat :=
  {| red := red t; blue := blue t; lcd := lcd t; ser := ser t;
     state_idx := state_idx t; setpoint_f := v;
     _last_uart := _last_uart t; _last_alt := _last_alt t;
     _alt_flag := _alt_flag t |}.

Definition set_last_uart (v : Float.float) (t : Thermostat) : Thermostat :=
  {| red := red t; blue := blue t; lcd := lcd t; ser := ser t;
     state_idx := state_idx t; setpoint_f := setpoint_f t;
     _last_uart := v; _last_alt := _last_alt t;
     _alt_flag := _alt_flag t |}.

Definition set_last_alt (v : Float.float) (t : Thermostat) : Thermostat :=
  {| red := red t; blue := blue t; lcd := lcd t; ser := ser t;
     state_idx := state_idx t; setpoint_f := setpoint_f t;
     _last_uart := _last_uart t; _last_alt := v;
     _alt_flag := _alt_flag t |}.

Definition set_alt_flag (v : bool) (t : Thermostat) : Thermostat :=
  {| red := red t; blue := blue t; lcd := lcd t; ser := ser t;
     state_idx := state_idx t; setpoint_f := setpoint_f t;
     _last_uart := _last_uart t; _last_alt := _last_alt t;
     _alt_flag := v |}.

(** [Thermostat.__init__], given whether the display and the serial port
    could be opened. *)
Definition __init__ (lcd_ok ser_ok : bool) : Thermostat :=
  {| red := Off;
     blue := Off;
     lcd := if lcd_ok then Some CharLCD_PCF8574 else None;
     ser := if ser_ok then Some Serial_port else None;
     state_idx := 0;
     setpoint_f := SETPOINT_F_DEFAULT;
     _last_uart := Float.zero;
     _last_alt := Float.zero;
     _alt_flag := false |}.

(** ** The monad of methods: state, device trace and exceptions *)

Record machine : Type := {
  self : Thermostat;
  out : list io
}.

Definition M (A : Type) : Type := machine -> result A * machine.

Definition ret {A : Type} (a : A) : M A := fun w => (Ok a, w).

Definition bind {A B : Type} (m : M A) (k : A -> M B) : M B :=
  fun w =>
    match m w with
    | (Ok a, w') => k a w'
    | (Raise e, w') => (Raise e, w')
    end.

Definition raise {A : Type} (e : exn) : M A := fun w => (Raise e, w).

Definition lift {A : Type} (r : result A) : M A := fun w => (r, w).

(** [try: m  except Exception: h] *)
Definition try_except {A : Type} (m : M A) (h : exn -> M A) : M A :=
  fun w =>
    match m w with
    | (Ok a, w') => (Ok a, w')
    | (Raise e, w') => h e w'
    end.

(** [try: m  finally: c] *)
Definition try_finally {A : Type} (m : M A) (c : M unit) : M A :=
  fun w =>
    match m w with
    | (r, w') =>
        match c w' with
        | (Ok _, w'') => (r, w'')
        | (Raise e, w'') => (Raise e, w'')
        end
    end.

Definition get : M Thermostat := fun w => (Ok (self w), w).

Definition modify (f : Thermostat -> Thermostat) : M unit :=
  fun w => (Ok tt, {| self := f (self w); out := out w |}).

Definition emit (e : io) : M unit :=
  fun w => (Ok tt, {| self := self w; out := out w ++ [e] |}).

Definition pass : M unit := ret tt.

Declare Scope py_scope.
Delimit Scope py_scope with py.
Notation "x <- c1 ;; c2" := (bind c1 (fun x => c2))
  (at level 61, c1 at next level, right associativity) : py_scope.
Notation "c1 ;; c2" := (bind c1 (fun _ => c2))
  (at level 61, right associativity) : py_scope.
Open Scope py_scope.

(** ** AHT20 helpers *)

(** [Thermostat._aht20_read_celsius]: trigger, settle, read six bytes,
    decode.  The humidity field is decoded and dropped, as in the source. *)
Definition tmp_raw_of (data3 data4 data5 : Z) : Z :=
  Z.land (Z.lor (Z.lor (Z.shiftl (Z.land data3 0x0F) 16) (Z.shiftl data4 8))
                data5)
         0xFFFFF.

Definition hum_raw_of (data1 data2 data3 : Z) : Z :=
  Z.land (Z.lor (Z.lor (Z.shiftl data1 12) (Z.shiftl data2 4))
                (Z.shiftr data3 4))
         0xFFFFF.

(** [(tmp_raw * 200.0 / (1 << 20)) - 50.0] *)
Definition celsius_of_raw (tmp_raw : Z) : Float.float :=
  Float.sub
    (Float.div (Float.mul (Float.of_int tmp_raw) (Float.of_int 200))
               (Float.of_int (Z.shiftl 1 20)))
    (Float.of_int 50).

Definition _aht20_read_celsius (bus : i2c_outcome) : result Float.float :=
  match bus with
  | WriteFault => Raise OSError
  | RdwrFault => Raise OSError
  | RdwrData data =>
      if negb (Nat.eqb (List.length data) 6)
      then Raise (RuntimeError "AHT20: bad read length")
      else
        let d := fun i => nth i data 0 in
        let hum_raw := hum_raw_of (d 1%nat) (d 2%nat) (d 3%nat) in
        let tmp_raw := tmp_raw_of (d 3%nat) (d 4%nat) (d 5%nat) in
        let temperature_c := celsius_of_raw tmp_raw in
        Ok temperature_c
  end.

(** [temp_c * 9.0/5.0 + 32.0], evaluated left to right *)
Definition fahrenheit_of_celsius (temp_c : Float.float) : Float.float :=
  Float.add (Float.div (Float.mul temp_c (Float.of_int 9)) (Float.of_int 5))
            (Float.of_int 32).

(** ** Properties *)

(** The [state] property, [STATE_ORDER[self.state_idx]]. *)
Definition state_of (t : Thermostat) : result string :=
  py_getitem STATE_ORDER (state_idx t).

Definition state : M string := t <- get ;; lift (state_of t).

(** ** Outputs / UI *)

(** A method of [self.red] or [self.blue] that sets the drive. *)
Definition on_red (f : PWMLED -> PWMLED) : M unit :=
  modify (fun t => set_red (f (red t)) t).

Definition on_blue (f : PWMLED -> PWMLED) : M unit :=
  modify (fun t => set_blue (f (blue t)) t).

(** A call on [self.red] or [self.blue] that may raise. *)
Definition call_red (f : PWMLED -> result PWMLED) : M unit :=
  t <- get ;; l <- lift (f (red t)) ;; modify (set_red l).

Definition call_blue (f : PWMLED -> result PWMLED) : M unit :=
  t <- get ;; l <- lift (f (blue t)) ;; modify (set_blue l).

(** The statements of [_apply_outputs] that follow the two [stop()] calls
    (lines 183-196): the drive by mode, temperature and setpoint. *)
Definition drive_by_state (temp : Float.float) : M unit :=
  s <- state ;;
  if String.eqb s HEAT then
    on_blue led_off ;;
    t <- get ;;
    if Float.lt_int temp (setpoint_f t) then
      on_red (led_pulse FADE_TIME FADE_TIME)
    else
      on_red led_value_1
  else
    s <- state ;;
    if String.eqb s COOL then
      on_red led_off ;;
      t <- get ;;
      if Float.gt_int temp (setpoint_f t) then
        on_blue (led_pulse FADE_TIME FADE_TIME)
      else
        on_blue led_value_1
    else
      on_red led_off ;; on_blue led_off.

(** [Thermostat._apply_outputs]; the argument is [None] or a float. *)
Definition _apply_outputs (current_temp_f : option Float.float) : M unit :=
  match current_temp_f with
  | None =>
      s <- state ;;
      if String.eqb s HEAT then
        on_red led_value_1 ;; on_blue led_off
      else
        s <- state ;;
        if String.eqb s COOL then
          on_blue led_value_1 ;; on_red led_off
        else
          on_red led_off ;; on_blue led_off
  | Some temp =>
      call_red led_stop ;; call_blue led_stop ;;
      drive_by_state temp
  end.

(** ** Buttons *)

Definition _cycle_mode : M unit :=
  modify (fun t =>
            set_state_idx
              ((state_idx t + 1) mod Z.of_nat (List.length STATE_ORDER)) t) ;;
  _ <- state ;;
  call_red led_stop ;; call_blue led_stop ;;
  _apply_outputs None.

Definition _sp_up : M unit :=
  modify (fun t => set_setpoint_f (setpoint_f t + 1) t).

Definition _sp_down : M unit :=
  modify (fun t => set_setpoint_f (setpoint_f t - 1) t).

(** ** Display and telemetry *)

Definition _lcd_write (line1 line2 : string) : M unit :=
  t <- get ;;
  match lcd t with
  | None => pass
  | Some _ =>
      let line1 := ljust LCD_COLS (str_take LCD_COLS line1) in
      let line2 := ljust LCD_COLS (str_take LCD_COLS line2) in
      emit lcd_home ;;
      emit (lcd_write_string line1) ;;
      emit lcd_crlf ;;
      emit (lcd_write_string line2)
  end.

(** [{"off":"OFF","heat":"HEAT","cool":"COOL"}[s]] *)
Definition state_label (s : string) : result string :=
  if String.eqb s "off" then Ok "OFF"
  else if String.eqb s "heat" then Ok "HEAT"
  else if String.eqb s "cool" then Ok "COOL"
  else Raise KeyError.

Definition _update_lcd (now : string) (current_temp_f : Float.float) : M unit :=
  t <- get ;;
  line2 <- (if negb (_alt_flag t) then
              ret ("T:" ++ rjust 5 (Float.format_1f current_temp_f) ++ "F")
            else
              s <- state ;;
              st <- lift (state_label s) ;;
              ret (st ++ " SP:" ++ rjust 3 (str_of_int (setpoint_f t)) ++ "F")) ;;
  _lcd_write now line2.

(** The telemetry line, [f"{self.state},{current_temp_f:.1f},{self.setpoint_f}\n"] *)
Definition uart_msg (s : string) (current_temp_f : Float.float) (setpoint : Z)
  : string :=
  s ++ "," ++ Float.format_1f current_temp_f ++ "," ++ str_of_int setpoint
    ++ newline.

Definition _uart_send (write_ok : bool) (current_temp_f : Float.float) : M unit :=
  t <- get ;;
  match ser t with
  | None => pass
  | Some _ =>
      s <- state ;;
      let msg := uart_msg s current_temp_f (setpoint_f t) in
      try_except
        (emit (ser_write msg write_ok) ;;
         if write_ok then pass else raise OSError)
        (fun _ => pass)
  end.

(** ** Main loop *)

(** The sensor read of one iteration with its [try]/[except]: a failed read
    yields [float("nan")]. *)
Definition read_temp_f (bus : i2c_outcome) : M Float.float :=
  try_except
    (temp_c <- lift (_aht20_read_celsius bus) ;;
     ret (fahrenheit_of_celsius temp_c))
    (fun _ => ret Float.nan).

(** The rest of the loop body, once [temp_f] is known: LED drive, display
    alternation and display update, telemetry. *)
Definition iteration_body (env : Env) (temp_f : Float.float) : M unit :=
  (if negb (Float.isnan temp_f) then _apply_outputs (Some temp_f) else pass) ;;
  let now := time_time env in
  t <- get ;;
  (if Float.ge (Float.sub now (_last_alt t)) LCD_ALT_PERIOD then
     modify (fun t => set_alt_flag (negb (_alt_flag t)) t) ;;
     modify (set_last_alt now)
   else pass) ;;
  (if negb (Float.isnan temp_f) then _update_lcd (strftime env) temp_f
   else pass) ;;
  t <- get ;;
  (if Float.ge (Float.sub now (_last_uart t)) UART_PERIOD
      && negb (Float.isnan temp_f)
   then
     _uart_send (uart_ok env) temp_f ;;
     modify (set_last_uart now)
   else pass).

(** One pass through the body of [while True:] in [Thermostat.run]. *)
Definition iteration (env : Env) : M unit :=
  temp_f <- read_temp_f (i2c env) ;;
  iteration_body env temp_f.

(** What happens while the program runs: a loop iteration, or a debounced
    button press handled between two iterations. *)
Variant event : Type :=
| Iteration (env : Env)
| PressMode
| PressUp
| PressDown.

(** A handler registered with [when_pressed] is called by gpiozero from its
    own thread, not by the loop: an exception it raises ends the handler
    there and does not reach [run]. *)
Definition handler (h : M unit) : M unit := try_except h (fun _ => pass).

Definition dispatch (ev : event) : M unit :=
  match ev with
  | Iteration env => iteration env
  | PressMode => handler _cycle_mode
  | PressUp => handler _sp_up
  | PressDown => handler _sp_down
  end.

(** The [while True:] loop, run for as long as events arrive; the end of the
    list is the arrival of [KeyboardInterrupt]. *)
Fixpoint loop (evs : list event) : M unit :=
  match evs with
  | [] => pass
  | ev :: rest => dispatch ev ;; loop rest
  end.

(** The [finally:] block of [Thermostat.run].  [self.bus] is always an open
    bus object, so its guard always passes. *)
Definition cleanup : M unit :=
  call_red led_stop ;; call_blue led_stop ;;
  on_red led_off ;; on_blue led_off ;;
  t <- get ;;
  match lcd t with
  | Some _ => try_except (emit lcd_clear) (fun _ => pass)
  | None => pass
  end ;;
  try_except (emit bus_close) (fun _ => pass) ;;
  match ser t with
  | Some _ => try_except (emit ser_close) (fun _ => pass)
  | None => pass
  end.

Definition run (evs : list event) : M unit :=
  try_finally (loop evs) cleanup.

(** Starting a method on an object with an empty device trace. *)
Definition start (t : Thermostat) : machine := {| self := t; out := [] |}.

(** ** Vocabulary of the specification *)

(** The temperature sample of one iteration as a value: the Fahrenheit
    reading, or NaN when the read raised. *)
Definition sample (bus : i2c_outcome) : Float.float :=
  match _aht20_read_celsius bus with
  | Ok temp_c => fahrenheit_of_celsius temp_c
  | Raise _ => Float.nan
  end.

(** A sample is available when the loop's own test [not math.isnan(temp_f)]
    passes. *)
Definition available (temp_f : Float.float) : Prop :=
  Float.isnan temp_f = false.

(** The sensor read fails: it ends in an exception. *)
Definition read_fails (bus : i2c_outcome) : Prop :=
  exists e, _aht20_read_celsius bus = Raise e.

(** At least [p] seconds lie between the readings [last] and [now] of the
    clock, by the numbers the two floats denote. *)
Definition exact_elapsed (now last : Float.float) (p : Z) : Prop :=
  Float.valid now = true /\ Float.valid last = true /\
  Float.is_finite now = true /\ Float.is_finite last = true /\
  (inject_Z p <= Float.to_Q now - Float.to_Q last)%Q.

(** The thermostat is in mode [m]. *)
Definition in_mode (t : Thermostat) (m : string) : Prop :=
  state_of t = Ok m.

(** The pair (heat channel, cool channel). *)
Definition channels (t : Thermostat) : PWMLED * PWMLED := (red t, blue t).

Definition set_channels (c : PWMLED * PWMLED) (t : Thermostat) : Thermostat :=
  set_blue (snd c) (set_red (fst c) t).

(** The fade the program starts: symmetric, [FADE_TIME] each way. *)
Definition Fading : PWMLED := Fade FADE_TIME FADE_TIME.



(** A method call that returns normally, from object [t] to object [t'],
    adding [new] to the device trace. *)
Definition returns (c : M unit) (t : Thermostat) (t' : Thermostat)
                   (new : list io) : Prop :=
  forall tr, c {| self := t; out := tr |}
             = (Ok tt, {| self := t'; out := tr ++ new |}).

(** A method call that ends in the exception [e], from object [t] to object
    [t'], without device I/O. *)
Definition raises (c : M unit) (e : exn) (t : Thermostat) (t' : Thermostat)
  : Prop :=
  forall tr, c {| self := t; out := tr |}
             = (Raise e, {| self := t'; out := tr |}).

(** The object a call leaves behind, whatever its outcome. *)
Definition after (c : M unit) (t : Thermostat) : Thermostat :=
  self (snd (c (start t))).

(** The telemetry writes and the display writes among device events. *)
Definition is_ser_write (e : io) : bool :=
  match e with ser_write _ _ => true | _ => false end.


(** The successor in OFF -> HEAT -> COOL -> OFF. *)
Definition next_mode (m : string) : string :=
  if String.eqb m OFF then HEAT
  else if String.eqb m HEAT then COOL
  else OFF.

(** ** Closed forms of the methods

    What each method computes, written as functions of the mode, for use in
    the proofs below; each is shown equal to the monadic code. *)

(** The drive of (heat, cool) that lines 183-196 of [_apply_outputs]
    compute. *)
Definition intents (m : string) (setpoint : Z) (temp : Float.float)
  : PWMLED * PWMLED :=
  if String.eqb m HEAT then
    (if Float.lt_int temp setpoint then Fading else SolidOn, Off)
  else if String.eqb m COOL then
    (Off, if Float.gt_int temp setpoint then Fading else SolidOn)
  else (Off, Off).

(** The drive of (heat, cool) after [_apply_outputs(None)]. *)
Definition reduced_intents (m : string) : PWMLED * PWMLED :=
  if String.eqb m HEAT then (SolidOn, Off)
  else if String.eqb m COOL then (Off, SolidOn)
  else (Off, Off).

Definition label_of (m : string) : string :=
  match state_label m with
  | Ok st => st
  | Raise _ => ""
  end.

Definition line2_of (t : Thermostat) (m : string) (temp : Float.float)
  : string :=
  if negb (_alt_flag t) then
    "T:" ++ rjust 5 (Float.format_1f temp) ++ "F"
  else
    label_of m ++ " SP:" ++ rjust 3 (str_of_int (setpoint_f t)) ++ "F".

Definition lcd_frame (t : Thermostat) (line1 line2 : string) : list io :=
  match lcd t with
  | None => []
  | Some _ =>
      [lcd_home;
       lcd_write_string (ljust LCD_COLS (str_take LCD_COLS line1));
       lcd_crlf;
       lcd_write_string (ljust LCD_COLS (str_take LCD_COLS line2))]
  end.

Definition telemetry (t : Thermostat) (m : string) (write_ok : bool)
                     (temp : Float.float) : list io :=
  match ser t with
  | None => []
  | Some _ => [ser_write (uart_msg m temp (setpoint_f t)) write_ok]
  end.

(** The two period tests of the loop, [now - last >= PERIOD] on floats. *)
Definition alt_due (env : Env) (t : Thermostat) : bool :=
  Float.ge (Float.sub (time_time env) (_last_alt t)) LCD_ALT_PERIOD.

Definition uart_due (env : Env) (t : Thermostat) (temp : Float.float) : bool :=
  Float.ge (Float.sub (time_time env) (_last_uart t)) UART_PERIOD
  && negb (Float.isnan temp).

(** The object after a loop body without a sample: only the alternation
    timer moves. *)
Definition outage_state (env : Env) (t : Thermostat) : Thermostat :=
  if alt_due env t
  then set_last_alt (time_time env) (set_alt_flag (negb (_alt_flag t)) t)
  else t.

(** The object after the index update of [_cycle_mode]. *)
Definition cycled (t : Thermostat) : Thermostat :=
  set_state_idx ((state_idx t + 1) mod 3) t.

(** ** Clock readings

    Readings of [time.time()] as floats and as the numbers they denote, for
    the comparison of the loop's period tests with the exact ones. *)

(** A clock reading of [k] ticks of 2^-22 s (the spacing of the doubles
    between 2^30 and 2^31, where [time.time()] lies), as a float. *)
Definition clock_reading (k : Z) : Float.float :=
  binary_normalize Float.prec Float.emax k (-22) false.

(** The same reading as a rational number of seconds. *)
Definition clock_seconds (k : Z) : Q := inject_Z k / inject_Z (2 ^ 22).

(** [now - last >= period] on floats, for a whole number of seconds
    [period]. *)
Definition float_period_test (now last : Float.float) (period : Z) : bool :=
  SFleb (Float.of_int period) (Float.sub now last).

(** [x * 2^k] on positive mantissas, for [k >= 0]. *)
Definition shl (x : positive) (k : Z) : positive :=
  match k with
  | Zpos p => shift_pos p x
  | _ => x
  end.

(** The float nearest to [z * 2^g]; it is that number itself when [z] fits
    in 53 bits. *)
Definition norm (g z : Z) : Float.float :=
  binary_normalize Float.prec Float.emax z g false.

(** The normal form of [(-1)^s * x * 2^e] when [x] has at most 53 bits: the
    mantissa is brought to 53 bits. *)
Definition canon (s : bool) (x : positive) (e : Z) : Float.float :=
  let d := Zpos (digits2_pos x) in
  S754_finite s (shl x (Float.prec - d)) (e + d - Float.prec).

(** ** Whole runs *)

Definition is_press_up (ev : event) : bool :=
  match ev with PressUp => true | _ => false end.

Definition is_press_down (ev : event) : bool :=
  match ev with PressDown => true | _ => false end.

(** How many events of a kind a run holds. *)
Definition count (p : event -> bool) (evs : list event) : nat :=
  List.length (filter p evs).

(** An event on which no [stop()] is called: an iteration whose read fails,
    or a press of a setpoint button. *)
Definition quiet (ev : event) : bool :=
  match ev with
  | Iteration env => Float.isnan (sample (i2c env))
  | PressMode => false
  | PressUp | PressDown => true
  end.

(** A string of the display's width that shows [line]: the line itself
    followed by spaces when it fits, its first [LCD_COLS] characters when it
    does not. *)
Definition shows (s line : string) : Prop :=
  String.length s = LCD_COLS /\
  ((String.length line <= LCD_COLS)%nat ->
   s = line ++ spaces (LCD_COLS - String.length line)) /\
  ((LCD_COLS <= String.length line)%nat -> s = str_take LCD_COLS line).

(** A test that holds on [n] consecutive integers from [from]. *)
Fixpoint all_from (f : Z -> bool) (from : Z) (n : nat) : bool :=
  match n with
  | O => true
  | S k => f from && all_from f (from + 1) k
  end.

(** * Facts about the float model *)

Section FloatFacts.

Lemma pow_pos_Zpos p : Z.pow_pos 2 p = Zpos (Pos.pow 2 p).
Proof. now rewrite Pos2Z.inj_pow, Z.pow_pos_fold. Qed.

Lemma cmp_int_exact x z :
  Float.is_finite x = true ->
  Float.cmp_int x z = Some (Float.to_Q x ?= inject_Z z)%Q.
Proof.
  destruct x as [s| s| |s m e]; try discriminate; intros _;
    cbn [Float.cmp_int].
  - unfold Qcompare; cbn [Float.to_Q Qnum Qden inject_Z].
    now rewrite !Z.mul_1_r.
  - destruct e as [|p|p]; cbn [Float.to_Q]; unfold Qcompare; cbn [Qnum Qden inject_Z].
    + now rewrite !Z.mul_1_r.
    + now rewrite !Z.mul_1_r.
    + now rewrite Z.mul_1_r, pow_pos_Zpos.
Qed.

Lemma lt_int_iff x z : Float.lt_int x z = true <-> Float.Below x z.
Proof.
  unfold Float.lt_int.
  destruct x as [s| s| |s m e].
  - rewrite cmp_int_exact by reflexivity. cbn [Float.Below].
    rewrite Qlt_alt. destruct (_ ?= _)%Q; intuition congruence.
  - cbn. destruct s; intuition congruence.
  - cbn. intuition congruence.
  - rewrite cmp_int_exact by reflexivity. cbn [Float.Below].
    rewrite Qlt_alt. destruct (_ ?= _)%Q; intuition congruence.
Qed.

Lemma gt_int_iff x z : Float.gt_int x z = true <-> Float.Above x z.
Proof.
  unfold Float.gt_int.
  destruct x as [s| s| |s m e].
  - rewrite cmp_int_exact by reflexivity. cbn [Float.Above].
    rewrite Qgt_alt. destruct (_ ?= _)%Q; intuition congruence.
  - cbn. destruct s; intuition congruence.
  - cbn. intuition congruence.
  - rewrite cmp_int_exact by reflexivity. cbn [Float.Above].
    rewrite Qgt_alt. destruct (_ ?= _)%Q; intuition congruence.
Qed.

Lemma lt_int_false_iff x z :
  available x -> (Float.lt_int x z = false <-> Float.AtLeast x z).
Proof.
  unfold available, Float.lt_int.
  destruct x as [s| s| |s m e]; try discriminate; intros _.
  - rewrite cmp_int_exact by reflexivity. cbn [Float.AtLeast].
    rewrite Qle_alt, <- Qcompare_antisym.
    destruct (_ ?= _)%Q; cbn; intuition congruence.
  - cbn. destruct s; intuition congruence.
  - rewrite cmp_int_exact by reflexivity. cbn [Float.AtLeast].
    rewrite Qle_alt, <- Qcompare_antisym.
    destruct (_ ?= _)%Q; cbn; intuition congruence.
Qed.

Lemma gt_int_false_iff x z :
  available x -> (Float.gt_int x z = false <-> Float.AtMost x z).
Proof.
  unfold available, Float.gt_int.
  destruct x as [s| s| |s m e]; try discriminate; intros _.
  - rewrite cmp_int_exact by reflexivity. cbn [Float.AtMost].
    rewrite Qle_alt.
    destruct (_ ?= _)%Q; cbn; intuition congruence.
  - cbn. destruct s; intuition congruence.
  - rewrite cmp_int_exact by reflexivity. cbn [Float.AtMost].
    rewrite Qle_alt.
    destruct (_ ?= _)%Q; cbn; intuition congruence.
Qed.

Lemma Equals_AtLeast x z : Float.Equals x z -> Float.AtLeast x z.
Proof.
  destruct x; cbn; try tauto; intros ->; apply Qle_refl.
Qed.

Lemma Equals_AtMost x z : Float.Equals x z -> Float.AtMost x z.
Proof.
  destruct x; cbn; try tauto; intros ->; apply Qle_refl.
Qed.

Lemma Equals_available x z : Float.Equals x z -> available x.
Proof. destruct x; cbn; try tauto; reflexivity. Qed.

End FloatFacts.

(** * Formatting to one decimal place *)

Section Tenths.

Lemma round_half_even_nearest p q :
  0 < q -> 2 * Z.abs (Float.round_half_even p q * q - p) <= q.
Proof.
  intros Hq. unfold Float.round_half_even.
  pose proof (Z.div_mod p q ltac:(lia)) as E.
  pose proof (Z.mod_pos_bound p q Hq) as B.
  destruct (Z.compare_spec (2 * (p mod q)) q) as [C|C|C];
    [destruct (Z.even (p / q))| |]; nia.
Qed.

(** The digits printed by [format(x, ".1f")] are the tenths nearest to the
    exact value of [x]. *)
Lemma tenths_nearest m e :
  (Qabs (inject_Z (Float.tenths m e)
         - 10 * Float.to_Q (S754_finite false m e))
   <= 1 # 2)%Q.
Proof.
  apply Qabs_Qle_condition.
  destruct e as [|p|p]; cbn [Float.tenths Float.to_Q cond_Zopp].
  - unfold Qle, Qminus, Qplus, Qopp, Qmult, inject_Z; cbn [Qnum Qden]. 
    split; nia.
  - unfold Qle, Qminus, Qplus, Qopp, Qmult, inject_Z; cbn [Qnum Qden].
    split; nia.
  - pose proof (round_half_even_nearest (Z.pos m * 10) (Z.pow_pos 2 p)) as R.
    rewrite pow_pos_Zpos in *. specialize (R ltac:(lia)).
    unfold Qle, Qminus, Qplus, Qopp, Qmult, inject_Z; cbn [Qnum Qden].
    rewrite ?Pos2Z.inj_mul. 
    split; nia.
Qed.

End Tenths.

(** * The arithmetic of the sensor conversion never produces NaN *)

Section NoNaN.

Lemma shr_1_nonneg mrs : 0 <= shr_m mrs -> 0 <= shr_m (shr_1 mrs).
Proof.
  destruct mrs as [m r s]; cbn [shr_m].
  destruct m as [|p|p]; [cbn; lia| |lia].
  destruct p; cbn; lia.
Qed.

Lemma iter_pos_nonneg n : forall mrs,
  0 <= shr_m mrs -> 0 <= shr_m (iter_pos shr_1 n mrs).
Proof.
  induction n as [n IH|n IH|]; intros mrs H; cbn [iter_pos].
  - apply IH, IH, shr_1_nonneg, H.
  - apply IH, IH, H.
  - apply shr_1_nonneg, H.
Qed.

Lemma shr_record_of_loc_m m l : shr_m (shr_record_of_loc m l) = m.
Proof. destruct l as [|[]]; reflexivity. Qed.

Lemma shr_fexp_nonneg m e l :
  0 <= m -> 0 <= shr_m (fst (shr_fexp Float.prec Float.emax m e l)).
Proof.
  intros H. unfold shr_fexp, shr.
  destruct (_ - e) as [|p|p]; cbn [fst];
    try (rewrite shr_record_of_loc_m; exact H).
  apply iter_pos_nonneg. rewrite shr_record_of_loc_m; exact H.
Qed.

Lemma round_nearest_even_nonneg m l :
  0 <= m -> 0 <= round_nearest_even m l.
Proof.
  intros H. unfold round_nearest_even.
  destruct l as [|[]]; try lia. destruct (Z.even m); lia.
Qed.

Lemma binary_round_aux_available sx mx ex lx :
  0 <= mx ->
  available (binary_round_aux Float.prec Float.emax sx mx ex lx).
Proof.
  intros H. unfold binary_round_aux, available.
  pose proof (shr_fexp_nonneg mx ex lx H) as H1.
  destruct (shr_fexp Float.prec Float.emax mx ex lx) as [mrs' e'].
  cbn [fst] in H1.
  pose proof (shr_fexp_nonneg _ e' loc_Exact
                (round_nearest_even_nonneg _ (loc_of_shr_record mrs') H1)) as H2.
  destruct (shr_fexp _ _ _ e' loc_Exact) as [mrs'' e''].
  cbn [fst] in H2.
  destruct (shr_m mrs'') as [|p|p]; [reflexivity| |lia].
  destruct (e'' <=? _); reflexivity.
Qed.

Lemma binary_normalize_available m e b :
  available (binary_normalize Float.prec Float.emax m e b).
Proof.
  unfold binary_normalize, binary_round.
  destruct m as [|p|p]; [reflexivity| |];
    destruct (shl_align _ _ _) as [mz ez];
    apply binary_round_aux_available; lia.
Qed.

(** A product with a finite non-zero float is not NaN. *)
Lemma mul_available x sy my ey :
  available x -> available (Float.mul x (S754_finite sy my ey)).
Proof.
  destruct x; try discriminate; intros _; try reflexivity.
  apply binary_round_aux_available; lia.
Qed.

(** A quotient by a finite non-zero float is not NaN. *)
Lemma div_available x sy my ey :
  available x -> available (Float.div x (S754_finite sy my ey)).
Proof.
  destruct x as [s|s| |s m e]; try discriminate; intros _; try reflexivity.
  unfold Float.div, SFdiv, SFdiv_core_binary.
  match goal with |- context [Z.div_eucl ?a ?b] =>
    pose proof (Z.div_eucl_eq a b ltac:(lia));
    pose proof (Z.mod_pos_bound a b ltac:(lia)) as Hr;
    assert (Ha : 0 <= a) by (destruct (_ - _ - _); [lia| |lia];
                             apply Z.shiftl_nonneg; lia);
    pose proof (Z.div_pos a b Ha ltac:(lia)) as Hq;
    unfold Z.modulo, Z.div in Hr, Hq;
    destruct (Z.div_eucl a b) as [q r]
  end.
  apply binary_round_aux_available. exact Hq.
Qed.

(** A sum or difference with a finite float is not NaN. *)
Lemma add_available x y :
  available x -> Float.is_finite y = true -> available (Float.add x y).
Proof.
  destruct x, y; try discriminate; intros _ _; try reflexivity.
  - destruct s, s0; reflexivity.
  - apply binary_normalize_available.
Qed.

Lemma sub_available x y :
  available x -> Float.is_finite y = true -> available (Float.sub x y).
Proof.
  destruct x, y; try discriminate; intros _ _; try reflexivity.
  - destruct s, s0; reflexivity.
  - apply binary_normalize_available.
Qed.

Lemma of_int_available z : available (Float.of_int z).
Proof. apply binary_normalize_available. Qed.

Lemma celsius_of_raw_available raw : available (celsius_of_raw raw).
Proof.
  unfold celsius_of_raw.
  apply sub_available; [|reflexivity].
  change (Float.of_int (Z.shiftl 1 20))
    with (S754_finite false 4503599627370496 (-32)).
  apply div_available.
  change (Float.of_int 200) with (S754_finite false 7036874417766400 (-45)).
  apply mul_available, of_int_available.
Qed.

Lemma fahrenheit_of_celsius_available temp_c :
  available temp_c -> available (fahrenheit_of_celsius temp_c).
Proof.
  intros H. unfold fahrenheit_of_celsius.
  apply add_available; [|reflexivity].
  change (Float.of_int 5) with (S754_finite false 5629499534213120 (-50)).
  apply div_available.
  change (Float.of_int 9) with (S754_finite false 5066549580791808 (-49)).
  apply mul_available, H.
Qed.

(** The loop's NaN test separates exactly the failed reads from the
    successful ones. *)
Lemma sample_available_iff bus : available (sample bus) <-> ~ read_fails bus.
Proof.
  unfold sample, read_fails.
  destruct (_aht20_read_celsius bus) as [c|e] eqn:E.
  - split; [intros _ [e' He']; discriminate|intros _].
    apply fahrenheit_of_celsius_available.
    destruct bus as [| |data]; try discriminate.
    cbn in E. destruct (negb _); [discriminate|].
    injection E as <-. apply celsius_of_raw_available.
  - split; [discriminate|intros H; exfalso; apply H; now exists e].
Qed.

Lemma sample_nan_iff bus : Float.isnan (sample bus) = true <-> read_fails bus.
Proof.
  pose proof (sample_available_iff bus) as H. unfold available in H.
  split.
  - intros E. unfold read_fails in *.
    destruct (_aht20_read_celsius bus) as [c|e] eqn:R; [|now exists e].
    exfalso. rewrite E in H. destruct H as [_ H].
    discriminate H. intros [e He]; discriminate.
  - intros F. destruct (Float.isnan (sample bus)); [reflexivity|].
    exfalso. now apply (proj1 H).
Qed.

End NoNaN.

(** * Decoding the payload *)

Section Decode.

Lemma lor_shiftl_add a b n :
  0 <= n -> 0 <= b < 2 ^ n -> Z.lor (Z.shiftl a n) b = a * 2 ^ n + b.
Proof.
  intros Hn Hb.
  assert (D : Z.land (Z.shiftl a n) b = 0).
  { apply Z.bits_inj'; intros i Hi.
    rewrite Z.land_spec, Z.bits_0.
    destruct (Z.lt_ge_cases i n) as [Lt|Ge].
    - now rewrite Z.shiftl_spec_low.
    - destruct (Z.eq_dec b 0) as [->|Nz].
      + now rewrite Z.bits_0, andb_false_r.
      + rewrite (Z.bits_above_log2 b i), andb_false_r; [reflexivity|lia|].
        assert (Z.log2 b < n) by (apply Z.log2_lt_pow2; lia). lia. }
  rewrite <- Z.lxor_lor, <- Z.add_nocarry_lxor by exact D.
  now rewrite Z.shiftl_mul_pow2.
Qed.

(** The temperature field: the low nibble of byte 3, then bytes 4 and 5. *)
Lemma tmp_raw_of_bytes d3 d4 d5 :
  0 <= d3 < 256 -> 0 <= d4 < 256 -> 0 <= d5 < 256 ->
  tmp_raw_of d3 d4 d5 = (d3 mod 16) * 65536 + d4 * 256 + d5.
Proof.
  intros H3 H4 H5. unfold tmp_raw_of.
  change 0x0F with (Z.ones 4). change 0xFFFFF with (Z.ones 20).
  rewrite !Z.land_ones by lia.
  change (2 ^ 4) with 16. change (2 ^ 20) with 1048576.
  pose proof (Z.mod_pos_bound d3 16 ltac:(lia)) as Hn.
  replace (Z.shiftl (d3 mod 16) 16) with (Z.shiftl (Z.shiftl (d3 mod 16) 8) 8)
    by (now rewrite Z.shiftl_shiftl by lia).
  rewrite <- Z.shiftl_lor.
  rewrite (lor_shiftl_add (d3 mod 16) d4 8) by (change (2 ^ 8) with 256; lia).
  rewrite (lor_shiftl_add _ d5 8) by (change (2 ^ 8) with 256; lia).
  change (2 ^ 8) with 256.
  rewrite Z.mod_small by lia. lia.
Qed.

Lemma tmp_raw_of_range d3 d4 d5 : 0 <= tmp_raw_of d3 d4 d5 < 2 ^ 20.
Proof.
  unfold tmp_raw_of. change 0xFFFFF with (Z.ones 20).
  rewrite Z.land_ones by lia. apply Z.mod_pos_bound. reflexivity.
Qed.

End Decode.


(** * Exact binary64 arithmetic on small integers *)

Section Rounding.

Lemma shl_Z x k : 0 <= k -> Zpos (shl x k) = Zpos x * 2 ^ k.
Proof.
  intros Hk. destruct k as [|p|p]; cbn [shl]; [lia| |lia].
  rewrite shift_pos_correct, Z.pow_pos_fold. lia.
Qed.

Lemma digits2_shift_pos k x :
  digits2_pos (shift_pos k x) = (digits2_pos x + k)%positive.
Proof.
  unfold shift_pos. induction k as [|k IH] using Pos.peano_ind.
  - cbn. lia.
  - rewrite Pos.iter_succ. cbn [digits2_pos]. rewrite IH. lia.
Qed.

Lemma digits2_shl x k :
  0 <= k -> Zpos (digits2_pos (shl x k)) = Zpos (digits2_pos x) + k.
Proof.
  intros Hk. destruct k as [|p|p]; cbn [shl]; [lia| |lia].
  rewrite digits2_shift_pos. lia.
Qed.

Lemma shl_shl x a b : 0 <= a -> 0 <= b -> shl (shl x a) b = shl x (a + b).
Proof.
  intros Ha Hb. apply Pos2Z.inj.
  rewrite !shl_Z, Z.pow_add_r by lia. lia.
Qed.

Lemma shl_0 x : shl x 0 = x.
Proof. reflexivity. Qed.

(** The magnitude of a number with [d] binary digits. *)
Lemma digits2_bounds x :
  2 ^ (Zpos (digits2_pos x) - 1) <= Zpos x < 2 ^ Zpos (digits2_pos x).
Proof.
  induction x as [x IH|x IH|]; cbn [digits2_pos].
  - rewrite Pos2Z.inj_succ.
    replace (Z.succ (Zpos (digits2_pos x)) - 1)
      with (Z.succ (Zpos (digits2_pos x) - 1)) by lia.
    rewrite !Z.pow_succ_r by lia. lia.
  - rewrite Pos2Z.inj_succ.
    replace (Z.succ (Zpos (digits2_pos x)) - 1)
      with (Z.succ (Zpos (digits2_pos x) - 1)) by lia.
    rewrite !Z.pow_succ_r by lia. lia.
  - cbn. lia.
Qed.

Lemma digits2_le x n : 0 <= n -> Zpos x < 2 ^ n -> Zpos (digits2_pos x) <= n.
Proof.
  intros Hn Hx. destruct (digits2_bounds x) as [L _].
  destruct (Z.le_gt_cases (Zpos (digits2_pos x)) n) as [|G]; [assumption|].
  exfalso.
  assert (2 ^ n <= 2 ^ (Zpos (digits2_pos x) - 1))
    by (apply Z.pow_le_mono_r; lia).
  lia.
Qed.

(** Shifting right the bits that a left shift has put in gives the number
    back, with nothing lost. *)
Lemma shr_shift_pos n : forall y,
  iter_pos shr_1 n
    {| shr_m := Zpos (shift_pos n y); shr_r := false; shr_s := false |}
  = {| shr_m := Zpos y; shr_r := false; shr_s := false |}.
Proof.
  unfold shift_pos.
  induction n as [n IH|n IH|]; intros y; cbn [iter_pos Pos.iter shr_1 orb].
  - rewrite IH, IH. reflexivity.
  - rewrite IH, IH. reflexivity.
  - reflexivity.
Qed.

Lemma fexp_normal z :
  -1074 <= z - 53 -> fexp Float.prec Float.emax z = z - 53.
Proof.
  intros H. unfold fexp, emin, Float.prec, Float.emax. lia.
Qed.

(** A 53-bit mantissa in range is left as it is. *)
Lemma binary_round_aux_canonical s m E :
  Zpos (digits2_pos m) = 53 -> -1074 <= E <= 971 ->
  binary_round_aux Float.prec Float.emax s (Zpos m) E loc_Exact
  = S754_finite s m E.
Proof.
  intros D R. unfold binary_round_aux, shr_fexp.
  cbn [Zdigits2 shr_record_of_loc]. rewrite D, fexp_normal by lia.
  replace (53 + E - 53 - E) with 0 by lia.
  cbn [shr shr_m loc_of_shr_record round_nearest_even Zdigits2
       shr_record_of_loc].
  rewrite D, fexp_normal by lia.
  replace (53 + E - 53 - E) with 0 by lia. cbn [shr shr_m].
  unfold Float.emax, Float.prec.
  destruct (Z.leb_spec E (1024 - 53)); [reflexivity|lia].
Qed.

(** A 53-bit mantissa followed by [n] zero bits is shifted back, exactly. *)
Lemma binary_round_aux_shr s y n E :
  Zpos (digits2_pos y) = 53 -> -1074 <= E <= 971 ->
  binary_round_aux Float.prec Float.emax s (Zpos (shift_pos n y))
    (E - Zpos n) loc_Exact
  = S754_finite s y E.
Proof.
  intros D R. unfold binary_round_aux, shr_fexp.
  cbn [Zdigits2 shr_record_of_loc].
  rewrite digits2_shift_pos, Pos2Z.inj_add, D, fexp_normal by lia.
  replace (53 + Zpos n + (E - Zpos n) - 53 - (E - Zpos n)) with (Zpos n)
    by lia.
  cbn [shr]. rewrite shr_shift_pos.
  replace (E - Zpos n + Zpos n) with E by lia.
  cbn [shr_m loc_of_shr_record round_nearest_even Zdigits2 shr_record_of_loc].
  rewrite D, fexp_normal by lia.
  replace (53 + E - 53 - E) with 0 by lia. cbn [shr shr_m].
  unfold Float.emax, Float.prec.
  destruct (Z.leb_spec E (1024 - 53)); [reflexivity|lia].
Qed.

(** Rounding [x * 2^j] at exponent [e - j] gives the normal form of
    [x * 2^e] when [x] fits in 53 bits: no bit is lost. *)
Lemma binary_round_canon s x j e :
  0 <= j ->
  Zpos (digits2_pos x) <= 53 ->
  -1074 <= e + Zpos (digits2_pos x) - 53 <= 971 ->
  binary_round Float.prec Float.emax s (shl x j) (e - j) = canon s x e.
Proof.
  intros Hj D R. unfold binary_round, canon, shl_align.
  rewrite digits2_shl by assumption.
  set (d := Zpos (digits2_pos x)) in *.
  rewrite fexp_normal by lia.
  change Float.prec with 53.
  destruct (d + j + (e - j) - 53 - (e - j)) as [|k|k] eqn:K.
  - replace (e - j) with (e + d - 53) by lia.
    replace (53 - d) with j by lia.
    apply binary_round_aux_canonical; [|lia].
    rewrite digits2_shl by assumption. fold d. lia.
  - assert (Y : shl x j = shift_pos k (shl x (53 - d))).
    { change (shift_pos k (shl x (53 - d)))
        with (shl (shl x (53 - d)) (Zpos k)).
      rewrite shl_shl by lia. f_equal. lia. }
    rewrite Y. replace (e - j) with (e + d - 53 - Zpos k) by lia.
    apply binary_round_aux_shr; [|lia].
    rewrite digits2_shl by lia. fold d. lia.
  - replace (d + j + (e - j) - 53) with (e + d - 53) by lia.
    change (Pos.iter xO (shl x j) k) with (shl (shl x j) (Zpos k)).
    rewrite shl_shl by lia.
    replace (j + Zpos k) with (53 - d) by lia.
    apply binary_round_aux_canonical; [|lia].
    rewrite digits2_shl by lia. fold d. lia.
Qed.

Lemma binary_normalize_pos x e :
  Zpos (digits2_pos x) <= 53 ->
  -1074 <= e + Zpos (digits2_pos x) - 53 <= 971 ->
  binary_normalize Float.prec Float.emax (Zpos x) e false = canon false x e.
Proof.
  intros D R. cbn [binary_normalize].
  rewrite <- (binary_round_canon false x 0 e) by lia.
  now rewrite Z.sub_0_r.
Qed.

Lemma binary_normalize_neg x e :
  Zpos (digits2_pos x) <= 53 ->
  -1074 <= e + Zpos (digits2_pos x) - 53 <= 971 ->
  binary_normalize Float.prec Float.emax (Zneg x) e false = canon true x e.
Proof.
  intros D R. cbn [binary_normalize].
  rewrite <- (binary_round_canon true x 0 e) by lia.
  now rewrite Z.sub_0_r.
Qed.

Lemma fst_shl_align m e e' : fst (shl_align m e e') = shl m (e - e').
Proof.
  unfold shl_align.
  destruct (e' - e) as [|k|k] eqn:K; cbn [fst].
  - now replace (e - e') with 0 by lia.
  - replace (e - e') with (Zneg k) by lia. reflexivity.
  - replace (e - e') with (Zpos k) by lia. reflexivity.
Qed.

Lemma digits2_53 x : Zpos x < 2 ^ 53 -> Zpos (digits2_pos x) <= 53.
Proof. intros H. apply digits2_le; lia. Qed.

(** Rounding a mantissa that already carries [x] followed by zero bits, with
    at least 53 bits in all. *)
Lemma binary_round_aux_canon s x j e :
  0 <= j ->
  Zpos (digits2_pos x) <= 53 ->
  53 <= Zpos (digits2_pos x) + j ->
  -1074 <= e + Zpos (digits2_pos x) - 53 <= 971 ->
  binary_round_aux Float.prec Float.emax s (Zpos (shl x j)) (e - j) loc_Exact
  = canon s x e.
Proof.
  intros Hj D L R. unfold canon. change Float.prec with 53.
  set (d := Zpos (digits2_pos x)) in *.
  destruct (Z.eq_dec (d + j) 53) as [E|E].
  - replace (e - j) with (e + d - 53) by lia.
    replace (53 - d) with j by lia.
    apply binary_round_aux_canonical; [|lia].
    rewrite digits2_shl by assumption. fold d. lia.
  - destruct (d + j - 53) as [|k|k] eqn:K; try lia.
    assert (Y : shl x j = shift_pos k (shl x (53 - d))).
    { change (shift_pos k (shl x (53 - d)))
        with (shl (shl x (53 - d)) (Zpos k)).
      rewrite shl_shl by lia. f_equal. lia. }
    rewrite Y. replace (e - j) with (e + d - 53 - Zpos k) by lia.
    apply binary_round_aux_shr; [|lia].
    rewrite digits2_shl by lia. fold d. lia.
Qed.

Lemma norm_pos g x :
  Zpos (digits2_pos x) <= 53 ->
  -1074 <= g + Zpos (digits2_pos x) - 53 <= 971 ->
  norm g (Zpos x) = canon false x g.
Proof. apply binary_normalize_pos. Qed.

Lemma norm_neg g x :
  Zpos (digits2_pos x) <= 53 ->
  -1074 <= g + Zpos (digits2_pos x) - 53 <= 971 ->
  norm g (Zneg x) = canon true x g.
Proof. apply binary_normalize_neg. Qed.

(** The normal form does not depend on how the number is written. *)
Lemma norm_scaled g J z :
  0 <= J -> - 2 ^ 53 < z < 2 ^ 53 -> -1021 <= g <= 0 ->
  binary_normalize Float.prec Float.emax (z * 2 ^ J) (g - J) false = norm g z.
Proof.
  intros HJ Hz Hg. destruct z as [|x|x].
  - reflexivity.
  - pose proof (digits2_53 x ltac:(lia)) as D.
    replace (Zpos x * 2 ^ J) with (Zpos (shl x J)) by (now rewrite shl_Z).
    rewrite norm_pos by lia. cbn [binary_normalize].
    apply binary_round_canon; lia.
  - pose proof (digits2_53 x ltac:(lia)) as D.
    replace (Zneg x * 2 ^ J) with (Zneg (shl x J))
      by (rewrite <- !Pos2Z.opp_pos, shl_Z by lia; lia).
    rewrite norm_neg by lia. cbn [binary_normalize].
    apply binary_round_canon; lia.
Qed.

(** Sum and difference of two numbers of a common grid are exact. *)
Lemma add_canon sa sb xa xb g :
  Zpos xa < 2 ^ 53 -> Zpos xb < 2 ^ 53 -> -1021 <= g <= 0 ->
  - 2 ^ 53 < cond_Zopp sa (Zpos xa) + cond_Zopp sb (Zpos xb) < 2 ^ 53 ->
  Float.add (canon sa xa g) (canon sb xb g)
  = norm g (cond_Zopp sa (Zpos xa) + cond_Zopp sb (Zpos xb)).
Proof.
  intros Pa Pb G S.
  pose proof (digits2_53 xa Pa) as Da. pose proof (digits2_53 xb Pb) as Db.
  unfold Float.add, canon, SFadd. rewrite !fst_shl_align.
  set (da := Zpos (digits2_pos xa)) in *.
  set (db := Zpos (digits2_pos xb)) in *.
  change Float.prec with 53.
  set (ez := Z.min (g + da - 53) (g + db - 53)).
  assert (Hez : ez <= g + da - 53 /\ ez <= g + db - 53) by (unfold ez; lia).
  rewrite !shl_shl by lia.
  replace (53 - da + (g + da - 53 - ez)) with (g - ez) by lia.
  replace (53 - db + (g + db - 53 - ez)) with (g - ez) by lia.
  set (J := g - ez). assert (HJ : 0 <= J) by (unfold J; lia).
  replace ez with (g - J) by (unfold J; lia).
  rewrite <- (norm_scaled g J) by lia. f_equal.
  destruct sa, sb; cbn [cond_Zopp]; rewrite <- ?Pos2Z.opp_pos, !shl_Z by lia;
    lia.
Qed.

Lemma sub_canon_signed sa sb xa xb g :
  Zpos xa < 2 ^ 53 -> Zpos xb < 2 ^ 53 -> -1021 <= g <= 0 ->
  - 2 ^ 53 < cond_Zopp sa (Zpos xa) - cond_Zopp sb (Zpos xb) < 2 ^ 53 ->
  Float.sub (canon sa xa g) (canon sb xb g)
  = norm g (cond_Zopp sa (Zpos xa) - cond_Zopp sb (Zpos xb)).
Proof.
  intros Pa Pb G S.
  pose proof (digits2_53 xa Pa) as Da. pose proof (digits2_53 xb Pb) as Db.
  unfold Float.sub, canon, SFsub. rewrite !fst_shl_align.
  set (da := Zpos (digits2_pos xa)) in *.
  set (db := Zpos (digits2_pos xb)) in *.
  change Float.prec with 53.
  set (ez := Z.min (g + da - 53) (g + db - 53)).
  assert (Hez : ez <= g + da - 53 /\ ez <= g + db - 53) by (unfold ez; lia).
  rewrite !shl_shl by lia.
  replace (53 - da + (g + da - 53 - ez)) with (g - ez) by lia.
  replace (53 - db + (g + db - 53 - ez)) with (g - ez) by lia.
  set (J := g - ez). assert (HJ : 0 <= J) by (unfold J; lia).
  replace ez with (g - J) by (unfold J; lia).
  rewrite <- (norm_scaled g J) by lia. f_equal.
  destruct sa, sb; cbn [cond_Zopp]; rewrite <- ?Pos2Z.opp_pos, !shl_Z by lia;
    lia.
Qed.

Lemma add_norm g a b :
  - 2 ^ 53 < a < 2 ^ 53 -> - 2 ^ 53 < b < 2 ^ 53 ->
  - 2 ^ 53 < a + b < 2 ^ 53 -> -1021 <= g <= 0 ->
  Float.add (norm g a) (norm g b) = norm g (a + b).
Proof.
  intros Ha Hb Hs G.
  destruct a as [|xa|xa], b as [|xb|xb]; try reflexivity;
    try (rewrite Z.add_0_r;
         rewrite ?(norm_pos g xa), ?(norm_neg g xa)
           by (pose proof (digits2_53 xa ltac:(lia)); lia);
         reflexivity);
    try (rewrite Z.add_0_l;
         rewrite ?(norm_pos g xb), ?(norm_neg g xb)
           by (pose proof (digits2_53 xb ltac:(lia)); lia);
         reflexivity).
  - rewrite (norm_pos g xa), (norm_pos g xb)
      by (pose proof (digits2_53 xa ltac:(lia));
          pose proof (digits2_53 xb ltac:(lia)); lia).
    apply (add_canon false false); cbn [cond_Zopp]; lia.
  - rewrite (norm_pos g xa), (norm_neg g xb)
      by (pose proof (digits2_53 xa ltac:(lia));
          pose proof (digits2_53 xb ltac:(lia)); lia).
    apply (add_canon false true); cbn [cond_Zopp]; lia.
  - rewrite (norm_neg g xa), (norm_pos g xb)
      by (pose proof (digits2_53 xa ltac:(lia));
          pose proof (digits2_53 xb ltac:(lia)); lia).
    apply (add_canon true false); cbn [cond_Zopp]; lia.
  - rewrite (norm_neg g xa), (norm_neg g xb)
      by (pose proof (digits2_53 xa ltac:(lia));
          pose proof (digits2_53 xb ltac:(lia)); lia).
    apply (add_canon true true); cbn [cond_Zopp]; lia.
Qed.

Lemma sub_norm g a b :
  - 2 ^ 53 < a < 2 ^ 53 -> - 2 ^ 53 < b < 2 ^ 53 ->
  - 2 ^ 53 < a - b < 2 ^ 53 -> -1021 <= g <= 0 ->
  Float.sub (norm g a) (norm g b) = norm g (a - b).
Proof.
  intros Ha Hb Hs G.
  assert (Dg : forall x, Zpos x < 2 ^ 53 ->
                 Zpos (digits2_pos x) <= 53 /\
                 -1074 <= g + Zpos (digits2_pos x) - 53 <= 971)
    by (intros x Hx; pose proof (digits2_53 x Hx); lia).
  destruct a as [|xa|xa], b as [|xb|xb]; try reflexivity.
  - change (0 - Zpos xb) with (Zneg xb).
    rewrite (norm_pos g xb), (norm_neg g xb) by (apply Dg; lia).
    reflexivity.
  - change (0 - Zneg xb) with (Zpos xb).
    rewrite (norm_pos g xb), (norm_neg g xb) by (apply Dg; lia).
    reflexivity.
  - rewrite Z.sub_0_r, (norm_pos g xa) by (apply Dg; lia). reflexivity.
  - rewrite (norm_pos g xa), (norm_pos g xb) by (apply Dg; lia).
    apply (sub_canon_signed false false); cbn [cond_Zopp]; lia.
  - rewrite (norm_pos g xa), (norm_neg g xb) by (apply Dg; lia).
    apply (sub_canon_signed false true); cbn [cond_Zopp]; lia.
  - rewrite Z.sub_0_r, (norm_neg g xa) by (apply Dg; lia). reflexivity.
  - rewrite (norm_neg g xa), (norm_pos g xb) by (apply Dg; lia).
    apply (sub_canon_signed true false); cbn [cond_Zopp]; lia.
  - rewrite (norm_neg g xa), (norm_neg g xb) by (apply Dg; lia).
    apply (sub_canon_signed true true); cbn [cond_Zopp]; lia.
Qed.

(** The number of digits of a product. *)
Lemma digits2_mul_ge xa xb :
  Zpos (digits2_pos xa) + Zpos (digits2_pos xb) - 1
  <= Zpos (digits2_pos (xa * xb)).
Proof.
  pose proof (digits2_bounds xa) as [La _].
  pose proof (digits2_bounds xb) as [Lb _].
  pose proof (digits2_bounds (xa * xb)) as [_ U].
  set (da := Zpos (digits2_pos xa)) in *.
  set (db := Zpos (digits2_pos xb)) in *.
  set (dp := Zpos (digits2_pos (xa * xb))) in *.
  destruct (Z.le_gt_cases (da + db - 1) dp) as [|G]; [assumption|exfalso].
  assert (P : 2 ^ dp <= 2 ^ (da - 1 + (db - 1)))
    by (apply Z.pow_le_mono_r; lia).
  rewrite Z.pow_add_r in P by lia.
  rewrite Pos2Z.inj_mul in U.
  assert (0 < 2 ^ (da - 1)) by (apply Z.pow_pos_nonneg; lia).
  assert (0 < 2 ^ (db - 1)) by (apply Z.pow_pos_nonneg; lia).
  nia.
Qed.

(** A product that fits in 53 bits is exact. *)
Lemma mul_canon sa xa ga xb gb :
  Zpos (xa * xb) < 2 ^ 53 ->
  -500 <= ga <= 0 -> -500 <= gb <= 0 ->
  Float.mul (canon sa xa ga) (canon false xb gb)
  = canon sa (xa * xb) (ga + gb).
Proof.
  intros P Ga Gb.
  pose proof (digits2_53 _ P) as Dp.
  pose proof (digits2_mul_ge xa xb) as Dm.
  unfold Float.mul. unfold canon at 1 2.
  cbv beta iota zeta delta [SFmul]. change Float.prec with 53.
  set (da := Zpos (digits2_pos xa)) in *.
  set (db := Zpos (digits2_pos xb)) in *.
  rewrite Bool.xorb_false_r.
  assert (da <= 53 /\ db <= 53) as [Da Db]
    by (pose proof (Pos2Z.is_pos (digits2_pos xa));
        pose proof (Pos2Z.is_pos (digits2_pos xb)); unfold da, db; lia).
  replace (shl xa (53 - da) * shl xb (53 - db))%positive
    with (shl (xa * xb) (106 - da - db)).
  2:{ apply Pos2Z.inj. rewrite Pos2Z.inj_mul, !shl_Z by lia.
      replace (106 - da - db) with (53 - da + (53 - db)) by lia.
      rewrite Z.pow_add_r, Pos2Z.inj_mul by lia. ring. }
  replace (ga + da - 53 + (gb + db - 53))
    with (ga + gb - (106 - da - db)) by lia.
  apply binary_round_aux_canon; lia.
Qed.

Lemma mul_norm ga a gb b :
  0 < b < 2 ^ 53 -> - 2 ^ 53 < a * b < 2 ^ 53 ->
  -500 <= ga <= 0 -> -500 <= gb <= 0 ->
  Float.mul (norm ga a) (norm gb b) = norm (ga + gb) (a * b).
Proof.
  intros Hb P Ga Gb.
  destruct b as [|xb|xb]; try lia.
  assert (Dg : forall g x, -1000 <= g <= 0 -> Zpos x < 2 ^ 53 ->
                 Zpos (digits2_pos x) <= 53 /\
                 -1074 <= g + Zpos (digits2_pos x) - 53 <= 971)
    by (intros g x Hg Hx; pose proof (digits2_53 x Hx); lia).
  rewrite (norm_pos gb xb) by (apply (Dg gb); lia).
  destruct a as [|xa|xa].
  - reflexivity.
  - change (Zpos xa * Zpos xb) with (Zpos (xa * xb)) in *.
    rewrite (norm_pos ga xa) by (apply (Dg ga); nia).
    rewrite (norm_pos _ (xa * xb)) by (apply (Dg (ga + gb)); nia).
    apply mul_canon; lia.
  - change (Zneg xa * Zpos xb) with (Zneg (xa * xb)) in *.
    rewrite (norm_neg ga xa) by (apply (Dg ga); nia).
    rewrite (norm_neg _ (xa * xb)) by (apply (Dg (ga + gb)); nia).
    apply mul_canon; lia.
Qed.

Lemma digits2_mul_le xa xb :
  Zpos (digits2_pos (xa * xb))
  <= Zpos (digits2_pos xa) + Zpos (digits2_pos xb).
Proof.
  pose proof (digits2_bounds xa) as [_ Ua].
  pose proof (digits2_bounds xb) as [_ Ub].
  apply digits2_le; [lia|].
  rewrite Z.pow_add_r, Pos2Z.inj_mul by lia. nia.
Qed.

(** The core of the division when the quotient is a whole number. *)
Lemma div_core_exact m1 e1 m2 e2 q :
  Zpos (digits2_pos m1) = 53 -> Zpos (digits2_pos m2) = 53 ->
  Zpos m1 * 2 ^ 53 = q * Zpos m2 ->
  -1074 <= e1 - e2 - 53 ->
  SFdiv_core_binary Float.prec Float.emax (Zpos m1) e1 (Zpos m2) e2
  = (q, e1 - e2 - 53, loc_Exact).
Proof.
  intros D1 D2 Q R. unfold SFdiv_core_binary. cbn [Zdigits2].
  rewrite D1, D2.
  replace (53 + e1 - (53 + e2)) with (e1 - e2) by lia.
  rewrite fexp_normal by lia.
  rewrite Z.min_l by lia.
  replace (e1 - e2 - (e1 - e2 - 53)) with 53 by lia.
  rewrite Z.shiftl_mul_pow2, Q by lia.
  pose proof (Z.div_mul q (Zpos m2) ltac:(lia)) as Dq.
  pose proof (Z.mod_mul q (Zpos m2) ltac:(lia)) as Dr.
  unfold Z.div, Z.modulo in Dq, Dr.
  destruct (Z.div_eucl (q * Zpos m2) (Zpos m2)) as [q' r'].
  subst q' r'. f_equal.
  unfold new_location, new_location_even, new_location_odd.
  now destruct (Z.even _).
Qed.

(** A quotient by a divisor of the numerator is exact. *)
Lemma div_canon s w c e ec :
  Zpos (c * w) < 2 ^ 53 ->
  -400 <= e <= 0 -> 0 <= ec <= 400 ->
  Float.div (canon s (c * w) e) (canon false c ec) = canon s w (e - ec).
Proof.
  intros P He Hec.
  pose proof (digits2_53 _ P) as Dy.
  pose proof (digits2_mul_le c w) as Dm.
  assert (Pw : Zpos w < 2 ^ 53) by (rewrite Pos2Z.inj_mul in P; nia).
  assert (Pc : Zpos c < 2 ^ 53) by (rewrite Pos2Z.inj_mul in P; nia).
  pose proof (digits2_53 _ Pw) as Dw. pose proof (digits2_53 _ Pc) as Dc.
  unfold Float.div. unfold canon at 1 2.
  cbv beta iota zeta delta [SFdiv]. change Float.prec with 53.
  set (dy := Zpos (digits2_pos (c * w))) in *.
  set (dc := Zpos (digits2_pos c)) in *.
  set (dw := Zpos (digits2_pos w)) in *.
  assert (1 <= dc /\ 1 <= dw /\ 1 <= dy) as (Lc & Lw & Ly)
    by (unfold dc, dw, dy; lia).
  rewrite (div_core_exact _ _ _ _ (Zpos (shl w (53 - dy + dc)))).
  - rewrite Bool.xorb_false_r.
    replace (e + dy - 53 - (ec + dc - 53) - 53)
      with (e - ec - (53 - dy + dc)) by lia.
    apply binary_round_aux_canon; fold dw; lia.
  - rewrite digits2_shl by lia. fold dy. lia.
  - rewrite digits2_shl by lia. fold dc. lia.
  - rewrite !shl_Z, Pos2Z.inj_mul by lia.
    assert (V : 2 ^ (53 - dy) * 2 ^ 53
                = 2 ^ (53 - dy + dc) * 2 ^ (53 - dc))
      by (rewrite <- !Z.pow_add_r by lia; f_equal; lia).
    transitivity (Zpos c * Zpos w * (2 ^ (53 - dy) * 2 ^ 53)); [ring|].
    rewrite V. ring.
  - lia.
Qed.

Lemma div_norm g c w ec :
  - 2 ^ 53 < Zpos c * w < 2 ^ 53 ->
  -400 <= g <= 0 -> 0 <= ec <= 400 ->
  Float.div (norm g (Zpos c * w)) (canon false c ec) = norm (g - ec) w.
Proof.
  intros P G Hec.
  assert (Dg : forall g x, -1000 <= g <= 0 -> Zpos x < 2 ^ 53 ->
                 Zpos (digits2_pos x) <= 53 /\
                 -1074 <= g + Zpos (digits2_pos x) - 53 <= 971)
    by (intros g' x Hg Hx; pose proof (digits2_53 x Hx); lia).
  destruct w as [|x|x].
  - rewrite Z.mul_0_r. reflexivity.
  - change (Zpos c * Zpos x) with (Zpos (c * x)) in *.
    rewrite (norm_pos g (c * x)) by (apply (Dg g); lia).
    rewrite (norm_pos (g - ec) x) by (apply (Dg (g - ec)); nia).
    apply div_canon; lia.
  - change (Zpos c * Zneg x) with (Zneg (c * x)) in *.
    rewrite (norm_neg g (c * x)) by (apply (Dg g); lia).
    rewrite (norm_neg (g - ec) x) by (apply (Dg (g - ec)); nia).
    apply div_canon; lia.
Qed.

(** The value of a number of the grid [2^-k]. *)
Lemma canon_value_grid s x k :
  Zpos (digits2_pos x) <= 53 ->
  (Float.to_Q (canon s x (Zneg k))
   == cond_Zopp s (Zpos x) # (2 ^ k)%positive)%Q.
Proof.
  intros D. unfold canon, Float.to_Q. change Float.prec with 53.
  set (d := Zpos (digits2_pos x)) in *.
  assert (1 <= d) by (unfold d; lia).
  destruct (Zneg k + d - 53) as [|p|p] eqn:E; try lia.
  unfold Qeq. cbn [Qnum Qden]. rewrite !Pos2Z.inj_pow.
  assert (P : 2 ^ Zpos p = 2 ^ (53 - d) * 2 ^ Zpos k).
  { replace (Zpos p) with (53 - d + Zpos k) by lia.
    now rewrite Z.pow_add_r by lia. }
  change (Z.pos 2) with 2. rewrite P.
  pose proof (shl_Z x (53 - d) ltac:(lia)) as S.
  destruct s; cbn [cond_Zopp Z.opp];
    rewrite <- ?Pos2Z.opp_pos, S; ring.
Qed.

Lemma norm_value_20 z :
  - 2 ^ 53 < z < 2 ^ 53 ->
  (Float.to_Q (norm (-20) z) == z # 1048576)%Q.
Proof.
  intros H. destruct z as [|x|x].
  - reflexivity.
  - pose proof (digits2_53 x ltac:(lia)).
    rewrite norm_pos by lia. apply (canon_value_grid false x 20). lia.
  - pose proof (digits2_53 x ltac:(lia)).
    rewrite norm_neg by lia. apply (canon_value_grid true x 20). lia.
Qed.

End Rounding.

(** * The sensor conversion is exact *)

Section Exact.

(** The Celsius value in closed form: a number of the grid 2^-20. *)
Lemma celsius_of_raw_norm raw :
  0 <= raw < 2 ^ 20 ->
  celsius_of_raw raw = norm (-20) (raw * 200 - 52428800).
Proof.
  intros H. unfold celsius_of_raw.
  change (Float.of_int raw) with (norm 0 raw).
  change (Float.of_int 200) with (norm 0 200).
  rewrite mul_norm by lia.
  change (Float.of_int (Z.shiftl 1 20)) with (canon false 1 20).
  replace (raw * 200) with (Zpos 1 * (raw * 200)) by lia.
  rewrite div_norm by lia.
  change (Float.of_int 50) with (norm (-20) 52428800).
  rewrite sub_norm by lia. f_equal. lia.
Qed.

(** The Fahrenheit value in closed form. *)
Lemma fahrenheit_of_raw_norm raw :
  0 <= raw < 2 ^ 20 ->
  fahrenheit_of_celsius (celsius_of_raw raw)
  = norm (-20) (raw * 360 - 60817408).
Proof.
  intros H. rewrite celsius_of_raw_norm by assumption.
  unfold fahrenheit_of_celsius.
  change (Float.of_int 9) with (norm 0 9).
  rewrite mul_norm by lia.
  change (Float.of_int 5) with (canon false 5 0).
  replace ((raw * 200 - 52428800) * 9)
    with (Zpos 5 * (raw * 360 - 94371840)) by lia.
  rewrite div_norm by lia.
  change (Float.of_int 32) with (norm (-20) 33554432).
  rewrite add_norm by lia. f_equal. lia.
Qed.

(** No rounding takes place in the conversion: the float results are the
    numbers [raw * 200 / 2^20 - 50] and [C * 9 / 5 + 32]. *)
Lemma celsius_of_raw_value raw :
  0 <= raw < 2 ^ 20 ->
  (Float.to_Q (celsius_of_raw raw)
   == inject_Z raw * 200 / inject_Z (2 ^ 20) - 50)%Q.
Proof.
  intros H. rewrite celsius_of_raw_norm, norm_value_20 by lia.
  change (2 ^ 20) with 1048576.
  unfold Qeq, Qminus, Qplus, Qopp, Qdiv, Qmult, Qinv, inject_Z.
  cbn [Qnum Qden Pos.mul]. lia.
Qed.

Lemma fahrenheit_of_raw_value raw :
  0 <= raw < 2 ^ 20 ->
  (Float.to_Q (fahrenheit_of_celsius (celsius_of_raw raw))
   == Float.to_Q (celsius_of_raw raw) * 9 / 5 + 32)%Q.
Proof.
  intros H.
  rewrite fahrenheit_of_raw_norm, celsius_of_raw_norm by assumption.
  rewrite !norm_value_20 by lia.
  unfold Qeq, Qminus, Qplus, Qopp, Qdiv, Qmult, Qinv, inject_Z.
  cbn [Qnum Qden Pos.mul]. lia.
Qed.

End Exact.

(** * Clock readings *)

Section Clock.

Lemma clock_reading_pos x :
  Zpos x < 2 ^ 53 -> clock_reading (Zpos x) = canon false x (-22).
Proof.
  intros H. pose proof (digits2_53 x H).
  apply binary_normalize_pos; lia.
Qed.

Lemma clock_reading_neg x :
  Zpos x < 2 ^ 53 -> clock_reading (Zneg x) = canon true x (-22).
Proof.
  intros H. pose proof (digits2_53 x H).
  apply binary_normalize_neg; lia.
Qed.

(** The float difference of two clock readings is the reading of the
    difference. *)
Lemma clock_sub ka kb :
  0 <= ka < 2 ^ 53 -> 0 <= kb < 2 ^ 53 ->
  Float.sub (clock_reading ka) (clock_reading kb) = clock_reading (ka - kb).
Proof.
  intros Ha Hb. apply (sub_norm (-22) ka kb); lia.
Qed.

(** A whole number of seconds against a clock difference: the float
    comparison decides the exact inequality. *)
Lemma leb_of_int_clock p k :
  0 < p < 2 ^ 31 -> - 2 ^ 53 < k < 2 ^ 53 ->
  SFleb (Float.of_int p) (clock_reading k) = (p * 2 ^ 22 <=? k).
Proof.
  intros Hp Hk.
  destruct p as [|xp|xp]; try lia.
  assert (Dp : Zpos (digits2_pos xp) <= 31) by (apply digits2_le; lia).
  unfold Float.of_int. rewrite (binary_normalize_pos xp 0) by lia.
  destruct k as [|x|x].
  - change (clock_reading 0) with (S754_zero false).
    unfold canon, SFleb, SFcompare. symmetry. apply Z.leb_gt. lia.
  - rewrite (clock_reading_pos x) by lia.
    pose proof (digits2_53 x ltac:(lia)) as Dx.
    pose proof (digits2_bounds xp) as Bp. pose proof (digits2_bounds x) as Bx.
    unfold canon, SFleb, SFcompare. change Float.prec with 53.
    set (dp := Zpos (digits2_pos xp)) in *.
    set (dx := Zpos (digits2_pos x)) in *.
    destruct (Z.compare_spec (0 + dp - 53) (-22 + dx - 53)) as [E|E|E].
    + rewrite Pos.compare_cont_spec. cbn [Pos.switch_Eq].
      rewrite Pos2Z.inj_compare, !shl_Z by lia.
      replace (53 - dp) with (22 + (53 - dx)) by lia.
      rewrite Z.pow_add_r, Z.mul_assoc by lia.
      assert (T : 0 < 2 ^ (53 - dx)) by (apply Z.pow_pos_nonneg; lia).
      rewrite <- (Zmult_compare_compat_r _ _ (2 ^ (53 - dx))) by lia.
      unfold Z.leb. now destruct (_ ?= _).
    + assert (2 ^ (dp + 22) <= 2 ^ (dx - 1))
        by (apply Z.pow_le_mono_r; lia).
      rewrite Z.pow_add_r in * by lia.
      symmetry. apply Z.leb_le. nia.
    + assert (2 ^ dx <= 2 ^ (dp - 1 + 22)) by (apply Z.pow_le_mono_r; lia).
      rewrite Z.pow_add_r in * by lia.
      symmetry. apply Z.leb_gt. nia.
  - rewrite (clock_reading_neg x) by lia.
    unfold canon, SFleb, SFcompare. symmetry. apply Z.leb_gt. lia.
Qed.

Lemma Qle_bool_clock p k :
  Qle_bool (inject_Z p) (clock_seconds k) = (p * 2 ^ 22 <=? k).
Proof.
  apply Bool.eq_iff_eq_true. rewrite Qle_bool_iff, Z.leb_le.
  unfold clock_seconds, Qle, Qdiv, Qmult, Qinv, inject_Z.
  cbn [Qnum Qden Z.pow Z.pow_pos Pos.iter Z.mul Pos.mul]. lia.
Qed.

Lemma clock_seconds_sub ka kb :
  (clock_seconds ka - clock_seconds kb == clock_seconds (ka - kb))%Q.
Proof.
  unfold clock_seconds. change (2 ^ 22) with 4194304.
  unfold Qeq, Qminus, Qplus, Qopp, Qdiv, Qmult, Qinv, inject_Z.
  cbn [Qnum Qden Pos.mul]. lia.
Qed.

Lemma canon_value s x :
  Zpos (digits2_pos x) <= 53 ->
  (Float.to_Q (canon s x (-22))
   == clock_seconds (cond_Zopp s (Zpos x)))%Q.
Proof.
  intros D. unfold canon, Float.to_Q. change Float.prec with 53.
  set (d := Zpos (digits2_pos x)) in *.
  destruct (-22 + d - 53) as [|p|p] eqn:E; try lia.
  unfold clock_seconds. change (2 ^ 22) with 4194304.
  unfold Qeq, Qdiv, Qmult, Qinv, inject_Z. cbn [Qnum Qden].
  rewrite Pos2Z.inj_pow.
  assert (P : 2 ^ Zpos p = 2 ^ (53 - d) * 4194304).
  { replace (Zpos p) with (53 - d + 22) by lia.
    rewrite Z.pow_add_r by lia. reflexivity. }
  change (Z.pos 2) with 2. rewrite P.
  pose proof (shl_Z x (53 - d) ltac:(lia)) as S.
  change (Z.pos (1 * 4194304)) with 4194304.
  destruct s; cbn [cond_Zopp Z.opp];
    rewrite <- ?Pos2Z.opp_pos, S; set (T := 2 ^ (53 - d)); lia.
Qed.

(** A clock reading denotes its number of seconds. *)
Lemma clock_reading_value k :
  - 2 ^ 53 < k < 2 ^ 53 ->
  (Float.to_Q (clock_reading k) == clock_seconds k)%Q.
Proof.
  intros H. destruct k as [|x|x].
  - reflexivity.
  - rewrite clock_reading_pos by lia.
    apply (canon_value false x), digits2_53. lia.
  - rewrite clock_reading_neg by lia.
    apply (canon_value true x), digits2_53. lia.
Qed.

(** The period tests of the loop computed on binary64 clock readings agree
    with the tests on the exact rational readings, for readings on the grid
    of 2^-22 s below 2^31 s and stamps that are such readings or [0.0]. *)
Lemma float_period_test_exact ka kb period :
  0 <= ka < 2 ^ 53 -> 0 <= kb < 2 ^ 53 -> 0 < period < 2 ^ 31 ->
  float_period_test (clock_reading ka) (clock_reading kb) period
  = Qle_bool (inject_Z period) (clock_seconds ka - clock_seconds kb).
Proof.
  intros Ha Hb Hp. unfold float_period_test.
  rewrite clock_sub, leb_of_int_clock by lia.
  rewrite <- Qle_bool_clock.
  apply Bool.eq_iff_eq_true. rewrite !Qle_bool_iff.
  now rewrite clock_seconds_sub.
Qed.

End Clock.

(** * Rounding never hides an elapsed period *)

Section Monotone.

Lemma shr_1_half mrs : 0 <= shr_m mrs -> shr_m (shr_1 mrs) = shr_m mrs / 2.
Proof.
  destruct mrs as [m r s]; cbn [shr_m]. intros H.
  destruct m as [|p|p]; [reflexivity| |lia].
  destruct p as [p|p|]; cbn [shr_1 shr_m].
  - apply (Z.div_unique _ _ _ 1); lia.
  - apply (Z.div_unique _ _ _ 0); lia.
  - reflexivity.
Qed.

Lemma iter_shr_floor n : forall mrs,
  0 <= shr_m mrs ->
  shr_m (iter_pos shr_1 n mrs) = shr_m mrs / 2 ^ Zpos n.
Proof.
  induction n as [n IH|n IH|]; intros mrs H; cbn [iter_pos].
  - assert (H1 : 0 <= shr_m (shr_1 mrs)) by now apply shr_1_nonneg.
    assert (H2 : 0 <= shr_m (iter_pos shr_1 n (shr_1 mrs)))
      by now apply iter_pos_nonneg.
    rewrite (IH _ H2), (IH _ H1), shr_1_half by assumption.
    assert (P : 0 < 2 ^ Zpos n) by (apply Z.pow_pos_nonneg; lia).
    rewrite !Z.div_div by lia.
    f_equal. replace (Zpos n~1) with (1 + Zpos n + Zpos n) by lia.
    rewrite !Z.pow_add_r by lia. change (2 ^ 1) with 2. ring.
  - assert (H2 : 0 <= shr_m (iter_pos shr_1 n mrs))
      by now apply iter_pos_nonneg.
    rewrite (IH _ H2), (IH _ H).
    assert (P : 0 < 2 ^ Zpos n) by (apply Z.pow_pos_nonneg; lia).
    rewrite !Z.div_div by lia.
    f_equal. replace (Zpos n~0) with (Zpos n + Zpos n) by lia.
    rewrite !Z.pow_add_r by lia. reflexivity.
  - rewrite shr_1_half by assumption. reflexivity.
Qed.

Lemma round_nearest_even_bounds m l :
  m <= round_nearest_even m l <= m + 1.
Proof.
  unfold round_nearest_even. destruct l as [|[]]; try lia.
  destruct (Z.even m); lia.
Qed.

Lemma digits2_eq x d :
  2 ^ (d - 1) <= Zpos x < 2 ^ d -> 1 <= d -> Zpos (digits2_pos x) = d.
Proof.
  intros [L U] Hd. pose proof (digits2_bounds x) as [L' U'].
  pose proof (digits2_le x d ltac:(lia) U).
  destruct (Z.eq_dec (Zpos (digits2_pos x)) d) as [|N]; [assumption|].
  exfalso.
  assert (2 ^ Zpos (digits2_pos x) <= 2 ^ (d - 1))
    by (apply Z.pow_le_mono_r; lia).
  lia.
Qed.


(** What [shr_fexp] leaves: the mantissa divided by the power of two that
    brings the exponent to [fexp], rounded down. *)
Lemma shr_fexp_floor m e l :
  0 <= m ->
  exists rec,
    shr_fexp Float.prec Float.emax m e l
    = (rec, e + Z.max 0 (fexp Float.prec Float.emax (Zdigits2 m + e) - e)) /\
    shr_m rec
    = m / 2 ^ Z.max 0 (fexp Float.prec Float.emax (Zdigits2 m + e) - e).
Proof.
  intros H. unfold shr_fexp, shr.
  destruct (fexp Float.prec Float.emax (Zdigits2 m + e) - e) as [|k|k].
  - eexists. split; [f_equal; cbn; lia|].
    rewrite shr_record_of_loc_m. cbn. now rewrite Z.div_1_r.
  - eexists. split; [f_equal; lia|].
    rewrite iter_shr_floor by (rewrite shr_record_of_loc_m; exact H).
    rewrite shr_record_of_loc_m. f_equal.
  - eexists. split; [f_equal; cbn; lia|].
    rewrite shr_record_of_loc_m. cbn. now rewrite Z.div_1_r.
Qed.

(** The order of a whole number against a float with a 53-bit mantissa. *)
Lemma leb_53 xp m e :
  Zpos (digits2_pos xp) <= 53 -> Zpos (digits2_pos m) = 53 ->
  Zpos xp * 2 ^ Z.max 0 (- e) <= Zpos m * 2 ^ Z.max 0 e ->
  SFleb (canon false xp 0) (S754_finite false m e) = true.
Proof.
  intros Dp Dm V.
  pose proof (digits2_bounds xp) as [Lp Up].
  pose proof (digits2_bounds m) as [Lm Um]. rewrite Dm in Lm, Um.
  set (dp := Zpos (digits2_pos xp)) in *.
  assert (1 <= dp) by (unfold dp; lia).
  assert (Ge : dp - 53 <= e).
  { destruct (Z.le_gt_cases (dp - 53) e) as [|G]; [assumption|exfalso].
    assert (e < 0) by lia.
    rewrite (Z.max_r 0 (- e)), (Z.max_l 0 e), Z.mul_1_r in V by lia.
    assert (2 ^ (dp - 1) * 2 ^ (- e) <= Zpos xp * 2 ^ (- e))
      by (apply Z.mul_le_mono_nonneg_r; [apply Z.pow_nonneg|]; lia).
    rewrite <- Z.pow_add_r in * by lia.
    assert (2 ^ 53 <= 2 ^ (dp - 1 + - e)) by (apply Z.pow_le_mono_r; lia).
    lia. }
  unfold canon, SFleb, SFcompare. change Float.prec with 53. fold dp.
  destruct (Z.compare_spec (0 + dp - 53) e) as [E|E|E]; [|reflexivity|lia].
  rewrite Pos.compare_cont_spec. cbn [Pos.switch_Eq].
  rewrite (Z.max_r 0 (- e)), (Z.max_l 0 e), Z.mul_1_r in V by lia.
  replace (- e) with (53 - dp) in V by lia.
  rewrite <- shl_Z in V by lia.
  rewrite Pos2Z.inj_compare in *.
  destruct (Z.compare_spec (Zpos (shl xp (53 - dp))) (Zpos m));
    [reflexivity|reflexivity|lia].
Qed.


(** The end of [binary_round_aux]: a mantissa of 53 bits, or 2^53 after a
    carry, at an exponent that is not subnormal. *)
Lemma round_tail_ge xp q g :
  Zpos (digits2_pos xp) <= 53 ->
  2 ^ 52 <= Zpos q <= 2 ^ 53 ->
  -1074 <= g ->
  (g <= 0 -> Zpos xp * 2 ^ (- g) <= Zpos q) ->
  SFleb (canon false xp 0)
    (let '(rec, e2) := shr_fexp Float.prec Float.emax (Zpos q) g loc_Exact in
     match shr_m rec with
     | 0 => S754_zero false
     | Zpos m =>
         if e2 <=? Float.emax - Float.prec then S754_finite false m e2
         else S754_infinity false
     | Zneg _ => S754_nan
     end) = true.
Proof.
  intros Dp [Lq Uq] Hg V.
  pose proof (digits2_bounds xp) as [Lp Up].
  assert (Xp : Zpos xp < 2 ^ 53).
  { assert (2 ^ Zpos (digits2_pos xp) <= 2 ^ 53)
      by (apply Z.pow_le_mono_r; lia). lia. }
  destruct (shr_fexp_floor (Zpos q) g loc_Exact ltac:(lia))
    as (rec & E & M).
  rewrite E. clear E.
  destruct (Z.eq_dec (Zpos q) (2 ^ 53)) as [C|C].
  - (* the carry: 2^53 becomes 2^52 one exponent up *)
    assert (D : Zpos (digits2_pos q) = 54)
      by (apply digits2_eq; [rewrite C; cbn; lia|lia]).
    assert (N : fexp Float.prec Float.emax (Zdigits2 (Zpos q) + g) - g = 1).
    { change (Zdigits2 (Zpos q)) with (Zpos (digits2_pos q)).
      rewrite D, fexp_normal by lia. lia. }
    rewrite N in *. rewrite C in M.
    change (2 ^ 53 / 2 ^ Z.max 0 1) with (Zpos (2 ^ 52)) in M.
    rewrite M. change (Z.max 0 1) with 1.
    destruct (g + 1 <=? Float.emax - Float.prec); [|reflexivity].
    apply leb_53; [assumption|reflexivity|].
    destruct (Z.le_gt_cases (g + 1) 0) as [G|G].
    + rewrite (Z.max_r 0 (- (g + 1))), (Z.max_l 0 (g + 1)), Z.mul_1_r by lia.
      specialize (V ltac:(lia)). rewrite C in V.
      replace (- g) with (1 + - (g + 1)) in V by lia.
      rewrite Z.pow_add_r in V by lia. change (2 ^ 1) with 2 in V.
      change (Zpos (2 ^ 52)) with (2 ^ 52).
      change (2 ^ 53) with (2 * 2 ^ 52) in V.
      lia.
    + rewrite (Z.max_l 0 (- (g + 1))), (Z.max_r 0 (g + 1)), Z.mul_1_r by lia.
      assert (2 ^ 1 <= 2 ^ (g + 1)) by (apply Z.pow_le_mono_r; lia).
      change (2 ^ 1) with 2 in *. change (Zpos (2 ^ 52)) with (2 ^ 52).
      change (2 ^ 53) with (2 * 2 ^ 52) in Xp. nia.
  - assert (D : Zpos (digits2_pos q) = 53)
      by (apply digits2_eq; [change (53 - 1) with 52|]; lia).
    assert (N : fexp Float.prec Float.emax (Zdigits2 (Zpos q) + g) - g = 0).
    { change (Zdigits2 (Zpos q)) with (Zpos (digits2_pos q)).
      rewrite D, fexp_normal by lia. lia. }
    rewrite N in *.
    change (Z.max 0 0) with 0 in *. rewrite Z.pow_0_r, Z.div_1_r in M.
    rewrite M, Z.add_0_r.
    destruct (g <=? Float.emax - Float.prec); [|reflexivity].
    apply leb_53; [assumption|assumption|].
    destruct (Z.le_gt_cases g 0) as [G|G].
    + rewrite (Z.max_r 0 (- g)), (Z.max_l 0 g), Z.mul_1_r by lia.
      now apply V.
    + rewrite (Z.max_l 0 (- g)), (Z.max_r 0 g), Z.mul_1_r by lia.
      assert (2 ^ 1 <= 2 ^ g) by (apply Z.pow_le_mono_r; lia).
      change (2 ^ 1) with 2 in *.
      change (2 ^ 53) with (2 * 2 ^ 52) in Xp. nia.
Qed.


(** A number at or above a whole number has at least as many bits. *)
Lemma digits_ge xp M E :
  Zpos xp * 2 ^ Z.max 0 (- E) <= Zpos M * 2 ^ Z.max 0 E ->
  Zpos (digits2_pos xp) <= Zpos (digits2_pos M) + E.
Proof.
  intros V.
  pose proof (digits2_bounds xp) as [Lp _].
  pose proof (digits2_bounds M) as [_ UM].
  set (dp := Zpos (digits2_pos xp)) in *.
  set (d := Zpos (digits2_pos M)) in *.
  assert (1 <= dp) by (unfold dp; lia). assert (1 <= d) by (unfold d; lia).
  set (a := Z.max 0 (- E)) in *. set (b := Z.max 0 E) in *.
  assert (0 <= a) by (unfold a; lia). assert (0 <= b) by (unfold b; lia).
  assert (b - a = E) by (unfold a, b; lia).
  destruct (Z.le_gt_cases dp (d + E)) as [|G]; [assumption|exfalso].
  assert (P : 2 ^ (d + b) <= 2 ^ (dp - 1 + a))
    by (apply Z.pow_le_mono_r; lia).
  rewrite !Z.pow_add_r in P by lia.
  assert (0 < 2 ^ a) by (apply Z.pow_pos_nonneg; lia).
  assert (0 < 2 ^ b) by (apply Z.pow_pos_nonneg; lia).
  nia.
Qed.

(** Rounding a number at or above a whole number of at most 53 bits gives a
    float at or above it: the case of a mantissa of 53 bits or more. *)
Lemma round_aux_ge xp M E :
  Zpos (digits2_pos xp) <= 53 ->
  53 <= Zpos (digits2_pos M) ->
  Zpos xp * 2 ^ Z.max 0 (- E) <= Zpos M * 2 ^ Z.max 0 E ->
  SFleb (canon false xp 0)
        (binary_round_aux Float.prec Float.emax false (Zpos M) E loc_Exact)
  = true.
Proof.
  intros Dp DM V.
  pose proof (digits_ge xp M E V) as Hd.
  pose proof (digits2_bounds M) as [LM UM].
  set (d := Zpos (digits2_pos M)) in *.
  assert (1 <= Zpos (digits2_pos xp)) by lia.
  unfold binary_round_aux.
  destruct (shr_fexp_floor (Zpos M) E loc_Exact ltac:(lia))
    as (rec1 & E1 & M1).
  rewrite E1. clear E1.
  assert (N : fexp Float.prec Float.emax (Zdigits2 (Zpos M) + E) - E = d - 53).
  { change (Zdigits2 (Zpos M)) with d. rewrite fexp_normal by lia. lia. }
  rewrite N in *. rewrite (Z.max_r 0 (d - 53)) in * by lia.
  set (n := d - 53) in *.
  assert (Pn : 0 < 2 ^ n) by (apply Z.pow_pos_nonneg; lia).
  assert (B1 : 2 ^ 52 <= shr_m rec1 < 2 ^ 53).
  { rewrite M1. split.
    - apply Z.div_le_lower_bound; [lia|].
      rewrite <- Z.pow_add_r by lia. now replace (n + 52) with (d - 1) by lia.
    - apply Z.div_lt_upper_bound; [lia|].
      rewrite <- Z.pow_add_r by lia. now replace (n + 53) with d by lia. }
  pose proof (round_nearest_even_bounds (shr_m rec1) (loc_of_shr_record rec1))
    as B2.
  destruct (round_nearest_even (shr_m rec1) (loc_of_shr_record rec1))
    as [|q|q] eqn:R; try lia.
  apply round_tail_ge; [assumption|lia|lia|].
  intros G.
  apply Z.le_trans with (shr_m rec1); [|lia].
  rewrite M1. apply Z.div_le_lower_bound; [lia|].
  rewrite (Z.max_r 0 (- E)), (Z.max_l 0 E), Z.mul_1_r in V by lia.
  replace (- E) with (n + - (E + n)) in V by lia.
  rewrite Z.pow_add_r in V by lia. lia.
Qed.


Lemma binary_round_ge xp M E :
  Zpos (digits2_pos xp) <= 53 ->
  Zpos xp * 2 ^ Z.max 0 (- E) <= Zpos M * 2 ^ Z.max 0 E ->
  SFleb (canon false xp 0) (binary_round Float.prec Float.emax false M E)
  = true.
Proof.
  intros Dp V.
  pose proof (digits_ge xp M E V) as Hd.
  set (d := Zpos (digits2_pos M)) in *.
  assert (1 <= Zpos (digits2_pos xp)) by lia.
  assert (1 <= d) by (unfold d; lia).
  unfold binary_round, shl_align. fold d.
  rewrite fexp_normal by lia.
  destruct (d + E - 53 - E) as [|k|k] eqn:K.
  - apply round_aux_ge; [assumption|fold d; lia|assumption].
  - apply round_aux_ge; [assumption|fold d; lia|assumption].
  - change (Pos.iter xO M k) with (shift_pos k M).
    apply round_aux_ge; [assumption|rewrite digits2_shift_pos; fold d; lia|].
    change (shift_pos k M) with (shl M (Zpos k)).
    rewrite shl_Z by lia.
    set (g := d + E - 53) in *.
    assert (Eg : E = g + Zpos k) by lia.
    assert (Pk : 0 < 2 ^ Zpos k) by (apply Z.pow_pos_nonneg; lia).
    destruct (Z.le_gt_cases E 0) as [N|N].
    + rewrite (Z.max_r 0 (- E)), (Z.max_l 0 E), Z.mul_1_r in V by lia.
      rewrite (Z.max_r 0 (- g)), (Z.max_l 0 g), Z.mul_1_r by lia.
      replace (- g) with (- E + Zpos k) by lia.
      rewrite Z.pow_add_r by lia.
      assert (0 < 2 ^ (- E)) by (apply Z.pow_pos_nonneg; lia). nia.
    + rewrite (Z.max_l 0 (- E)), (Z.max_r 0 E), Z.mul_1_r in V by lia.
      destruct (Z.le_gt_cases g 0) as [G|G].
      * rewrite (Z.max_r 0 (- g)), (Z.max_l 0 g), Z.mul_1_r by lia.
        replace (Zpos k) with (E + - g) by lia.
        rewrite Z.pow_add_r by lia.
        assert (0 < 2 ^ (- g)) by (apply Z.pow_pos_nonneg; lia).
        assert (0 < 2 ^ E) by (apply Z.pow_pos_nonneg; lia). nia.
      * rewrite (Z.max_l 0 (- g)), (Z.max_r 0 g), Z.mul_1_r by lia.
        rewrite Eg, Z.pow_add_r in V by lia. lia.
Qed.


(** The value of a finite float at a scale [2^e0] below its exponent. *)
Lemma to_Q_scale s m e e0 :
  e0 <= e ->
  (Float.to_Q (S754_finite s m e) * inject_Z (2 ^ Z.max 0 (- e0))
   == inject_Z (cond_Zopp s (Zpos m) * 2 ^ (e - e0) * 2 ^ Z.max 0 e0))%Q.
Proof.
  intros H. set (sm := cond_Zopp s (Zpos m)).
  assert (U : 0 <= Z.max 0 e0) by lia. assert (V : 0 <= Z.max 0 (- e0)) by lia.
  unfold Float.to_Q. fold sm. destruct e as [|k|k].
  - unfold Qeq, Qmult, inject_Z; cbn [Qnum Qden Pos.mul].
    rewrite (Z.max_l 0 e0) by lia. rewrite !Z.mul_1_r.
    replace (Z.max 0 (- e0)) with (0 - e0) by lia. reflexivity.
  - unfold Qeq, Qmult, inject_Z; cbn [Qnum Qden Pos.mul]. rewrite !Z.mul_1_r.
    rewrite <- !Z.mul_assoc. f_equal.
    rewrite <- !Z.pow_add_r by lia. f_equal. lia.
  - unfold Qeq, Qmult, inject_Z; cbn [Qnum Qden Pos.mul].
    rewrite (Z.max_l 0 e0), Z.pow_0_r, !Z.mul_1_r by lia.
    rewrite (Z.max_r 0 (- e0)) by lia.
    rewrite Pos.mul_1_r, Pos2Z.inj_pow. rewrite <- !Z.mul_assoc. f_equal.
    rewrite <- Z.pow_add_r by lia. f_equal. lia.
Qed.


Lemma scaled_le p v z u (x : Q) :
  0 <= v ->
  (x * inject_Z (2 ^ v) == inject_Z (z * 2 ^ u))%Q ->
  (inject_Z p <= x)%Q ->
  p * 2 ^ v <= z * 2 ^ u.
Proof.
  intros Hv E L.
  assert (P : (0 <= inject_Z (2 ^ v))%Q).
  { rewrite <- (Zle_Qle 0). apply Z.pow_nonneg. lia. }
  pose proof (Qmult_le_compat_r _ _ _ L P) as K.
  rewrite E, <- inject_Z_mult in K. now rewrite Zle_Qle.
Qed.

Lemma cond_Zopp_shl s m a :
  0 <= a -> cond_Zopp s (Zpos (shl m a)) = cond_Zopp s (Zpos m) * 2 ^ a.
Proof.
  intros H. rewrite shl_Z by assumption. destruct s; cbn [cond_Zopp]; ring.
Qed.

Lemma to_Q_negb s m e :
  (Float.to_Q (S754_finite (negb s) m e)
   == - Float.to_Q (S754_finite s m e))%Q.
Proof.
  unfold Float.to_Q.
  destruct e; unfold Qeq, Qopp, inject_Z; cbn [Qnum Qden];
    destruct s; cbn [cond_Zopp negb]; ring.
Qed.

(** A valid float at or above a whole number compares so. *)
Lemma finite_ge_valid xp s m e :
  bounded Float.prec Float.emax m e = true ->
  Zpos (digits2_pos xp) <= 53 ->
  (inject_Z (Zpos xp) <= Float.to_Q (S754_finite s m e))%Q ->
  SFleb (canon false xp 0) (S754_finite s m e) = true.
Proof.
  intros B Dp L.
  pose proof (to_Q_scale s m e e (Z.le_refl e)) as S.
  rewrite Z.sub_diag, Z.pow_0_r, Z.mul_1_r in S.
  pose proof (scaled_le (Zpos xp) (Z.max 0 (- e)) _ (Z.max 0 e) _
                ltac:(lia) S L) as V.
  assert (0 < 2 ^ Z.max 0 (- e)) by (apply Z.pow_pos_nonneg; lia).
  assert (0 < 2 ^ Z.max 0 e) by (apply Z.pow_pos_nonneg; lia).
  destruct s; cbn [cond_Zopp] in V; [exfalso; nia|].
  pose proof (digits_ge xp m e V) as Hd.
  assert (1 <= Zpos (digits2_pos xp)) by lia.
  apply leb_53; [assumption| |assumption].
  unfold bounded, canonical_mantissa in B.
  apply andb_true_iff in B. destruct B as [B _].
  apply Z.eqb_eq in B. rewrite fexp_normal in B by lia. lia.
Qed.

(** No rounding hides an elapsed period: when the exact difference of two
    valid finite floats is at least the whole number [p], so is their
    binary64 difference. *)
Lemma sub_ge_exact x y p :
  Float.valid x = true -> Float.valid y = true ->
  Float.is_finite x = true -> Float.is_finite y = true ->
  0 < p < 2 ^ 53 ->
  (inject_Z p <= Float.to_Q x - Float.to_Q y)%Q ->
  Float.ge (Float.sub x y) (Float.of_int p) = true.
Proof.
  intros Vx Vy Fx Fy Hp L.
  destruct p as [|xp|xp]; try lia.
  pose proof (digits2_53 xp ltac:(lia)) as Dp.
  assert (1 <= Zpos (digits2_pos xp)) by lia.
  unfold Float.ge, Float.of_int.
  rewrite (binary_normalize_pos xp 0) by lia.
  destruct x as [sx|sx| |sx mx ex], y as [sy|sy| |sy my ey];
    try discriminate; unfold Float.sub, SFsub.
  - exfalso. cbn in L. unfold Qle in L. cbn in L. lia.
  - unfold Float.valid in Vy. cbn [valid_binary] in Vy.
    assert (L' : (inject_Z (Zpos xp)
                  <= Float.to_Q (S754_finite (negb sy) my ey))%Q).
    { eapply Qle_trans; [exact L|]. apply Qle_lteq. right.
      rewrite to_Q_negb. change (Float.to_Q (S754_zero sx)) with 0%Q. ring. }
    now apply finite_ge_valid.
  - unfold Float.valid in Vx. cbn [valid_binary] in Vx.
    assert (L' : (inject_Z (Zpos xp)
                  <= Float.to_Q (S754_finite sx mx ex))%Q).
    { eapply Qle_trans; [exact L|]. apply Qle_lteq. right.
      change (Float.to_Q (S754_zero sy)) with 0%Q. ring. }
    destruct sy; now apply finite_ge_valid.
  - set (ez := Z.min ex ey).
    rewrite !fst_shl_align, !cond_Zopp_shl by lia.
    pose proof (to_Q_scale sx mx ex ez ltac:(lia)) as Sx.
    pose proof (to_Q_scale sy my ey ez ltac:(lia)) as Sy.
    set (zx := cond_Zopp sx (Zpos mx) * 2 ^ (ex - ez)) in *.
    set (zy := cond_Zopp sy (Zpos my) * 2 ^ (ey - ez)) in *.
    assert (S : ((Float.to_Q (S754_finite sx mx ex)
                  - Float.to_Q (S754_finite sy my ey))
                 * inject_Z (2 ^ Z.max 0 (- ez))
                 == inject_Z ((zx - zy) * 2 ^ Z.max 0 ez))%Q).
    { rewrite Z.mul_sub_distr_r. unfold Z.sub.
      rewrite inject_Z_plus, inject_Z_opp, <- Sx, <- Sy. ring. }
    pose proof (scaled_le (Zpos xp) (Z.max 0 (- ez)) _ (Z.max 0 ez) _
                  ltac:(lia) S L) as V.
    assert (0 < 2 ^ Z.max 0 (- ez)) by (apply Z.pow_pos_nonneg; lia).
    assert (0 < 2 ^ Z.max 0 ez) by (apply Z.pow_pos_nonneg; lia).
    destruct (zx - zy) as [|M|M] eqn:Z; try (exfalso; nia).
    cbn [binary_normalize]. now apply binary_round_ge.
Qed.

End Monotone.

(** * The methods, one by one *)

(** Case analysis on the object's index once its mode is known
    ([H : in_mode t m] after [state_of_inv]). *)
Ltac by_index H :=
  match type of H with
  | context [state_idx ?t] =>
      destruct t as [r b l s i sp lu la af]; cbn [state_idx] in H
  end;
  destruct H as [[-> [->| ->]]|[[-> [->| ->]]|[-> [->| ->]]]].

(** Evaluation of monadic code, leaving the tests on floats and clocks
    alone. *)
Ltac run_code :=
  cbv -[app Float.lt_int Float.gt_int Float.isnan Float.format_1f
        Float.ge Float.sub LCD_ALT_PERIOD UART_PERIOD FADE_TIME
        str_of_int rjust ljust str_take String.append].

Section Methods.

(** The modes are the three entries of [STATE_ORDER]; each is reached by
    two indices, Python's negative indices counting from the end. *)
Lemma state_of_inv t m :
  in_mode t m ->
  (m = OFF /\ (state_idx t = 0 \/ state_idx t = -3)) \/
  (m = HEAT /\ (state_idx t = 1 \/ state_idx t = -2)) \/
  (m = COOL /\ (state_idx t = 2 \/ state_idx t = -1)).
Proof.
  unfold in_mode, state_of, py_getitem.
  change (Z.of_nat (List.length STATE_ORDER)) with 3.
  destruct (Z.ltb_spec (state_idx t) 0);
    match goal with
    | |- context [(0 <=? ?j) && (?j <? 3)] =>
        destruct (Z.leb_spec 0 j); destruct (Z.ltb_spec j 3);
        cbn [andb]; try discriminate
    end.
  - assert (E : state_idx t = -3 \/ state_idx t = -2 \/ state_idx t = -1)
      by lia.
    destruct E as [E|[E|E]]; rewrite E; cbn; intros [= <-]; auto 6.
  - assert (E : state_idx t = 0 \/ state_idx t = 1 \/ state_idx t = 2)
      by lia.
    destruct E as [E|[E|E]]; rewrite E; cbn; intros [= <-]; auto 6.
Qed.

Lemma in_mode_cases t m : in_mode t m -> m = OFF \/ m = HEAT \/ m = COOL.
Proof. intros H. apply state_of_inv in H. tauto. Qed.


(** Composition of normal returns. *)
Lemma returns_bind (c : M unit) (k : unit -> M unit) t t1 t2 io1 io2 :
  returns c t t1 io1 -> returns (k tt) t1 t2 io2 ->
  returns (bind c k) t t2 (io1 ++ io2).
Proof.
  intros H1 H2 tr. unfold bind. rewrite H1, H2, app_assoc. reflexivity.
Qed.

Lemma returns_get (k : Thermostat -> M unit) t t' new :
  returns (k t) t t' new -> returns (bind get k) t t' new.
Proof. intros H tr. unfold bind, get. cbn. apply H. Qed.

Lemma returns_pass t : returns pass t t [].
Proof. intros tr. now rewrite app_nil_r. Qed.

Lemma returns_modify f t : returns (modify f) t (f t) [].
Proof. intros tr. now rewrite app_nil_r. Qed.

Lemma returns_eq (c : M unit) t t1 t2 io1 io2 :
  returns c t t1 io1 -> t1 = t2 -> io1 = io2 -> returns c t t2 io2.
Proof. now intros H <- <-. Qed.

(** An exception ends the sequence it occurs in. *)
Lemma raises_bind (c : M unit) (k : unit -> M unit) e t t' :
  raises c e t t' -> raises (bind c k) e t t'.
Proof. intros H tr. unfold bind. now rewrite H. Qed.

Lemma returns_then_raises (c : M unit) (k : unit -> M unit) e t t1 t2 :
  returns c t t1 [] -> raises (k tt) e t1 t2 -> raises (bind c k) e t t2.
Proof.
  intros H1 H2 tr. unfold bind. rewrite H1, app_nil_r. apply H2.
Qed.

(** ** The calls of [stop()] *)

Lemma red_stop_raises t : raises (call_red led_stop) AttributeError t t.
Proof. intros tr. reflexivity. Qed.

(** [_apply_outputs] with a temperature ends at its first statement, line
    181, for every object and every temperature. *)
Lemma apply_outputs_Some_raises temp t :
  raises (_apply_outputs (Some temp)) AttributeError t t.
Proof. intros tr. reflexivity. Qed.

(** The statements after line 181 compute the drive of the docstring. *)
Lemma drive_by_state_returns t m temp :
  in_mode t m ->
  returns (drive_by_state temp) t
          (set_channels (intents m (setpoint_f t) temp) t) [].
Proof.
  intros H tr. rewrite app_nil_r. apply state_of_inv in H; by_index H; run_code;
    try destruct (Float.lt_int temp sp); try destruct (Float.gt_int temp sp);
    reflexivity.
Qed.

Lemma apply_outputs_None_returns t m :
  in_mode t m ->
  returns (_apply_outputs None) t (set_channels (reduced_intents m) t) [].
Proof.
  intros H tr. rewrite app_nil_r. apply state_of_inv in H; by_index H; reflexivity.
Qed.

Lemma cycled_in_mode t :
  exists m, in_mode (cycled t) m.
Proof.
  unfold in_mode, state_of, cycled; cbn [state_idx set_state_idx].
  pose proof (Z.mod_pos_bound (state_idx t + 1) 3 ltac:(lia)) as B.
  assert (E : (state_idx t + 1) mod 3 = 0 \/ (state_idx t + 1) mod 3 = 1
              \/ (state_idx t + 1) mod 3 = 2) by lia.
  destruct E as [E|[E|E]]; rewrite E; eexists; reflexivity.
Qed.

Lemma cycled_next_mode t m : in_mode t m -> in_mode (cycled t) (next_mode m).
Proof. intros H. apply state_of_inv in H; by_index H; reflexivity. Qed.

(** [_cycle_mode] moves the index, looks the new mode up and ends at line
    146, for every object, whatever its index. *)
Lemma cycle_mode_raises t : raises _cycle_mode AttributeError t (cycled t).
Proof.
  intros tr. destruct (cycled_in_mode t) as [m H].
  change (_cycle_mode {| self := t; out := tr |})
    with ((_ <- state ;; call_red led_stop ;; call_blue led_stop ;;
           _apply_outputs None) {| self := cycled t; out := tr |}).
  unfold bind at 1. unfold state, bind, get, lift. cbn [self].
  unfold in_mode in H. rewrite H. reflexivity.
Qed.

Lemma sp_up_returns t :
  returns _sp_up t (set_setpoint_f (setpoint_f t + 1) t) [].
Proof. intros tr. now rewrite app_nil_r. Qed.

Lemma sp_down_returns t :
  returns _sp_down t (set_setpoint_f (setpoint_f t - 1) t) [].
Proof. intros tr. now rewrite app_nil_r. Qed.

Lemma lcd_write_returns line1 line2 t :
  returns (_lcd_write line1 line2) t t (lcd_frame t line1 line2).
Proof.
  intros tr. destruct t as [r b l s i sp lu la af]. destruct l; run_code;
    rewrite <- ?app_assoc, ?app_nil_r; reflexivity.
Qed.

Lemma update_lcd_returns t m now temp :
  in_mode t m ->
  returns (_update_lcd now temp) t t (lcd_frame t now (line2_of t m temp)).
Proof.
  intros H tr. apply state_of_inv in H; by_index H; destruct l, af; run_code;
    rewrite <- ?app_assoc, ?app_nil_r; reflexivity.
Qed.

Lemma uart_send_returns t m write_ok temp :
  in_mode t m ->
  returns (_uart_send write_ok temp) t t (telemetry t m write_ok temp).
Proof.
  intros H tr. apply state_of_inv in H; by_index H; destruct s, write_ok; run_code;
    rewrite ?app_nil_r; reflexivity.
Qed.

Lemma read_temp_f_returns bus w : read_temp_f bus w = (Ok (sample bus), w).
Proof.
  unfold read_temp_f, sample, try_except, bind, lift, ret.
  destruct (_aht20_read_celsius bus); reflexivity.
Qed.

(** The [finally:] block ends at its first statement, line 266. *)
Lemma cleanup_raises t : raises cleanup AttributeError t t.
Proof. intros tr. reflexivity. Qed.

(** ** One loop body *)

(** Without a sample only the alternation timer moves.  The mode is never
    looked up, so this holds for every object. *)
Lemma iteration_body_nan env temp t :
  Float.isnan temp = true ->
  returns (iteration_body env temp) t (outage_state env t) [].
Proof.
  intros En.
  destruct env as [bus now wall uok].
  destruct t as [r b l s i sp lu la af].
  unfold iteration_body, outage_state, alt_due.
  cbn [time_time strftime uart_ok].
  rewrite En. cbn [negb _last_alt].
  destruct (Float.ge (Float.sub now la) LCD_ALT_PERIOD) eqn:Ea;
    (eapply returns_eq;
     [ repeat first
         [ apply returns_pass
         | apply returns_modify
         | apply returns_get; cbn beta; cbn [_last_alt];
           rewrite ?Ea, ?andb_false_r
         | eapply returns_bind ]
     | reflexivity
     | reflexivity ]).
Qed.

(** With a sample the body ends in [_apply_outputs], before the timers, the
    display and the telemetry are looked at. *)
Lemma iteration_body_raises env temp t :
  Float.isnan temp = false ->
  raises (iteration_body env temp) AttributeError t t.
Proof.
  intros En. unfold iteration_body. rewrite En. cbn [negb].
  apply raises_bind, apply_outputs_Some_raises.
Qed.

Lemma iteration_unfold env w :
  iteration env w = iteration_body env (sample (i2c env)) w.
Proof.
  unfold iteration, bind. now rewrite read_temp_f_returns.
Qed.

Lemma iteration_returns_nan env t :
  Float.isnan (sample (i2c env)) = true ->
  returns (iteration env) t (outage_state env t) [].
Proof.
  intros H tr. rewrite iteration_unfold.
  now apply iteration_body_nan.
Qed.

Lemma iteration_raises env t :
  available (sample (i2c env)) ->
  raises (iteration env) AttributeError t t.
Proof.
  intros H tr. rewrite iteration_unfold.
  now apply iteration_body_raises.
Qed.

Lemma outage_state_frame env t :
  channels (outage_state env t) = channels t /\
  lcd (outage_state env t) = lcd t /\
  ser (outage_state env t) = ser t /\
  state_idx (outage_state env t) = state_idx t /\
  setpoint_f (outage_state env t) = setpoint_f t /\
  _last_uart (outage_state env t) = _last_uart t.
Proof. unfold outage_state. destruct (alt_due env t); repeat split. Qed.

Lemma loop_cons_returns ev rest t t' new tr :
  returns (dispatch ev) t t' new ->
  loop (ev :: rest) {| self := t; out := tr |}
  = loop rest {| self := t'; out := tr ++ new |}.
Proof.
  intros R. cbn [loop]. unfold bind. now rewrite (R tr).
Qed.

Lemma loop_cons_raises ev rest e t t' :
  raises (dispatch ev) e t t' -> raises (loop (ev :: rest)) e t t'.
Proof. intros R. cbn [loop]. now apply raises_bind. Qed.

End Methods.

(** * The calls of [stop()]: the mode button and the actuator *)

Section Stop.


Lemma channels_set_channels c t : channels (set_channels c t) = c.
Proof. now destruct c. Qed.




(** C1: the actuator update with a temperature.  For every object in a mode
    and every temperature, [_apply_outputs(temp)] ends in [AttributeError]
    at its first statement after the [None] test, line 181
    ([self.red.stop()]), and leaves both channels as they were: no intent is
    applied.  The statements it does not reach, lines 183-196, are the ones
    that would set the drive of the docstring: OFF both off, HEAT cool off
    and heat fading below the setpoint and solid otherwise, COOL heat off
    and cool fading above the setpoint and solid otherwise. *)
Theorem apply_outputs_aborts temp t m :
  in_mode t m ->
  raises (_apply_outputs (Some temp)) AttributeError t t /\
  channels (after (_apply_outputs (Some temp)) t) = channels t /\
  returns (drive_by_state temp) t
          (set_channels (intents m (setpoint_f t) temp) t) [].
Proof.
  intros H. split; [intros tr; reflexivity|].
  split; [reflexivity|]. now apply drive_by_state_returns.
Qed.

Lemma apply_outputs_aborts_witness :
  raises (_apply_outputs (Some (Float.of_int 68))) AttributeError
         (set_state_idx 1 (__init__ true true))
         (set_state_idx 1 (__init__ true true)) /\
  channels (after (_apply_outputs (Some (Float.of_int 68)))
                  (set_state_idx 1 (__init__ true true)))
  = channels (set_state_idx 1 (__init__ true true)) /\
  returns (drive_by_state (Float.of_int 68))
          (set_state_idx 1 (__init__ true true))
          (set_channels
             (intents HEAT (setpoint_f (set_state_idx 1 (__init__ true true)))
                      (Float.of_int 68))
             (set_state_idx 1 (__init__ true true))) [].
Proof.
  apply (apply_outputs_aborts (Float.of_int 68)
           (set_state_idx 1 (__init__ true true)) HEAT).
  reflexivity.
Defined.

(** The failing input in numbers: HEAT, setpoint 72, 68.0 degrees.  The
    docstring asks for a fading heat channel; the call raises and the heat
    channel stays off. *)
Example heat_below_setpoint :
  _apply_outputs (Some (Float.of_int 68))
                 (start (set_state_idx 1 (__init__ true true)))
  = (Raise AttributeError, start (set_state_idx 1 (__init__ true true))) /\
  channels (set_state_idx 1 (__init__ true true)) = (Off, Off) /\
  intents HEAT 72 (Float.of_int 68) = (Fading, Off).
Proof. repeat split. Qed.

(** C7: the reduced path.  [_apply_outputs(None)] itself sets the channels
    from the mode alone (HEAT heat solid and cool off, COOL cool solid and
    heat off, OFF both off), but a press of the mode button does not get to
    it: [_cycle_mode] ends in [AttributeError] at line 146, one line before
    the call, with the new mode and the old channels. *)
Theorem mode_press_skips_reduced_path t m :
  in_mode t m ->
  returns (_apply_outputs None) t (set_channels (reduced_intents m) t) [] /\
  exists t1,
    raises _cycle_mode AttributeError t t1 /\
    in_mode t1 (next_mode m) /\
    channels t1 = channels t.
Proof.
  intros H. split; [now apply apply_outputs_None_returns|].
  exists (cycled t).
  split; [apply cycle_mode_raises|].
  split; [now apply cycled_next_mode|reflexivity].
Qed.

Lemma mode_press_skips_reduced_path_witness :
  returns (_apply_outputs None) (__init__ true true)
          (set_channels (reduced_intents OFF) (__init__ true true)) [] /\
  exists t1,
    raises _cycle_mode AttributeError (__init__ true true) t1 /\
    in_mode t1 (next_mode OFF) /\
    channels t1 = channels (__init__ true true).
Proof.
  apply (mode_press_skips_reduced_path (__init__ true true) OFF).
  reflexivity.
Defined.

(** The failing input in numbers: the first press after start-up enters HEAT
    and leaves the heat channel off, where the reduced path would have it
    solid. *)
Example first_press :
  _cycle_mode (start (__init__ true true))
  = (Raise AttributeError, start (set_state_idx 1 (__init__ true true))) /\
  in_mode (set_state_idx 1 (__init__ true true)) HEAT /\
  channels (set_state_idx 1 (__init__ true true)) = (Off, Off) /\
  reduced_intents HEAT = (SolidOn, Off).
Proof. repeat split. Qed.



End Stop.
(** * The sensor read *)

Section Sensor.

Lemma read_fails_iff bus :
  read_fails bus <->
  (bus = WriteFault \/ bus = RdwrFault \/
   exists data, bus = RdwrData data /\ List.length data <> 6%nat).
Proof.
  unfold read_fails. destruct bus as [| |data]; cbn.
  - split; [auto|intros _; now exists OSError].
  - split; [auto|intros _; now exists OSError].
  - destruct (Nat.eqb_spec (List.length data) 6) as [E|E]; cbn.
    + split.
      * intros [e He]. discriminate.
      * intros [F|[F|(d & [= <-] & Hd)]]; try discriminate. contradiction.
    + split.
      * intros _. right. right. now exists data.
      * intros _. now eexists.
Qed.

(** C8: the sensor read.  It raises exactly when the bus reports an error or
    the payload is not six bytes long.  On six bytes it ignores the status
    byte and the humidity bits, takes the 20-bit field made of the low nibble
    of byte 3 followed by bytes 4 and 5, and returns
    [raw * 200.0 / 2^20 - 50.0]; the loop turns that into Fahrenheit by
    [* 9.0 / 5.0 + 32.0].  Both float results are the exact values of these
    formulas. *)
Theorem aht20_read_celsius_spec :
  (forall bus,
      read_fails bus <->
      (bus = WriteFault \/ bus = RdwrFault \/
       exists data, bus = RdwrData data /\ List.length data <> 6%nat)) /\
  (forall d0 d1 d2 d3 d4 d5,
      0 <= d3 < 256 -> 0 <= d4 < 256 -> 0 <= d5 < 256 ->
      let raw := (d3 mod 16) * 65536 + d4 * 256 + d5 in
      let temp_c :=
        Float.sub
          (Float.div (Float.mul (Float.of_int raw) (Float.of_int 200))
                     (Float.of_int (2 ^ 20)))
          (Float.of_int 50) in
      let temp_f :=
        Float.add
          (Float.div (Float.mul temp_c (Float.of_int 9)) (Float.of_int 5))
          (Float.of_int 32) in
      0 <= raw < 2 ^ 20 /\
      _aht20_read_celsius (RdwrData [d0; d1; d2; d3; d4; d5]) = Ok temp_c /\
      (forall w,
          read_temp_f (RdwrData [d0; d1; d2; d3; d4; d5]) w
          = (Ok temp_f, w)) /\
      (Float.to_Q temp_c == inject_Z raw * 200 / inject_Z (2 ^ 20) - 50)%Q /\
      (Float.to_Q temp_f == Float.to_Q temp_c * 9 / 5 + 32)%Q).
Proof.
  split; [exact read_fails_iff|].
  intros d0 d1 d2 d3 d4 d5 H3 H4 H5 raw temp_c temp_f.
  assert (R : 0 <= raw < 2 ^ 20).
  { subst raw. rewrite <- tmp_raw_of_bytes by assumption.
    apply tmp_raw_of_range. }
  assert (E : _aht20_read_celsius (RdwrData [d0; d1; d2; d3; d4; d5])
              = Ok temp_c).
  { cbn [_aht20_read_celsius List.length Nat.eqb negb nth].
    unfold celsius_of_raw. now rewrite tmp_raw_of_bytes. }
  split; [exact R|]. split; [exact E|]. split; [|split].
  - intros w. rewrite read_temp_f_returns. unfold sample. now rewrite E.
  - exact (celsius_of_raw_value raw R).
  - exact (fahrenheit_of_raw_value raw R).
Qed.

Lemma aht20_read_celsius_spec_witness :
  0 <= (5 mod 16) * 65536 + 222 * 256 + 184 < 2 ^ 20 /\
  _aht20_read_celsius (RdwrData [28; 0; 0; 5; 222; 184])
  = Ok (celsius_of_raw ((5 mod 16) * 65536 + 222 * 256 + 184)) /\
  (forall w,
      read_temp_f (RdwrData [28; 0; 0; 5; 222; 184]) w
      = (Ok (fahrenheit_of_celsius
               (celsius_of_raw ((5 mod 16) * 65536 + 222 * 256 + 184))),
         w)) /\
  (Float.to_Q (celsius_of_raw ((5 mod 16) * 65536 + 222 * 256 + 184))
   == inject_Z ((5 mod 16) * 65536 + 222 * 256 + 184) * 200
      / inject_Z (2 ^ 20) - 50)%Q /\
  (Float.to_Q (fahrenheit_of_celsius
                 (celsius_of_raw ((5 mod 16) * 65536 + 222 * 256 + 184)))
   == Float.to_Q (celsius_of_raw ((5 mod 16) * 65536 + 222 * 256 + 184))
      * 9 / 5 + 32)%Q.
Proof.
  apply (proj2 aht20_read_celsius_spec 28 0 0 5 222 184); lia.
Defined.

(** A reading in numbers: the payload above is 23.4 degrees Celsius, 74.1
    degrees Fahrenheit. *)
Example reading_74_1 :
  Float.format_1f (sample (RdwrData [28; 0; 0; 5; 222; 184])) = "74.1".
Proof. reflexivity. Qed.

(** The conversion at the ends and in the middle of the scale: no rounding
    takes place. *)
Example celsius_of_raw_exact :
  celsius_of_raw 0 = Float.of_int (-50) /\
  celsius_of_raw (2 ^ 19) = Float.of_int 50 /\
  (Float.to_Q (celsius_of_raw 1048575)
   == inject_Z 1048575 * 200 / inject_Z (2 ^ 20) - 50)%Q /\
  (Float.to_Q (fahrenheit_of_celsius (celsius_of_raw 1048575))
   == (inject_Z 1048575 * 200 / inject_Z (2 ^ 20) - 50) * 9 / 5 + 32)%Q.
Proof. repeat split. Qed.

End Sensor.

(** * The loop *)

Section Loop.

Lemma alt_due_iff env t :
  alt_due env t = true <->
  Float.ge (Float.sub (time_time env) (_last_alt t)) LCD_ALT_PERIOD = true.
Proof. reflexivity. Qed.

(** ** Iterations without a sample *)

(** C5: a failed sensor read.  The iteration returns normally, the loop
    goes on with the remaining events, no device is written to, and both
    actuator channels are what they were before the iteration. *)
Theorem failed_read_keeps_outputs env t :
  read_fails (i2c env) ->
  exists t',
    returns (iteration env) t t' [] /\
    channels t' = channels t /\
    forall rest tr,
      loop (Iteration env :: rest) {| self := t; out := tr |}
      = loop rest {| self := t'; out := tr |}.
Proof.
  intros F. apply sample_nan_iff in F.
  pose proof (iteration_returns_nan env t F) as R.
  eexists. split; [exact R|]. split.
  - apply outage_state_frame.
  - intros rest tr.
    rewrite (loop_cons_returns (Iteration env) rest t _ [] tr R).
    now rewrite app_nil_r.
Qed.

Lemma failed_read_keeps_outputs_witness :
  exists t',
    returns (iteration {| i2c := RdwrFault; time_time := Float.of_int 5;
                          strftime := ""; uart_ok := true |})
            (set_red Fading (set_state_idx 1 (__init__ true true))) t' [] /\
    channels t'
    = channels (set_red Fading (set_state_idx 1 (__init__ true true))) /\
    forall rest tr,
      loop (Iteration {| i2c := RdwrFault; time_time := Float.of_int 5;
                         strftime := ""; uart_ok := true |} :: rest)
           {| self := set_red Fading (set_state_idx 1 (__init__ true true));
              out := tr |}
      = loop rest {| self := t'; out := tr |}.
Proof.
  apply (failed_read_keeps_outputs
           {| i2c := RdwrFault; time_time := Float.of_int 5; strftime := "";
              uart_ok := true |}).
  exists OSError. reflexivity.
Defined.



(** ** Iterations with a sample *)

(** C3: the display alternation.  In an iteration whose sensor read
    succeeds the flag does not flip, however long ago the last flip was, so
    also when 2.0 seconds or more have passed: the iteration ends in
    [AttributeError] at line 181, in [_apply_outputs], before the
    alternation code of lines 249-252 is reached; the flag and the time
    stamp of the last flip stay as they were. *)
Theorem reading_blocks_alternation env t :
  available (sample (i2c env)) ->
  exists t',
    raises (iteration env) AttributeError t t' /\
    _alt_flag t' = _alt_flag t /\
    _last_alt t' = _last_alt t.
Proof.
  intros A. exists t. split; [now apply iteration_raises|].
  split; reflexivity.
Qed.

Lemma reading_blocks_alternation_witness :
  exists t',
    raises (iteration {| i2c := RdwrData [28; 0; 0; 5; 222; 184];
                         time_time := Float.of_int 30;
                         strftime := "11/03 09:16:30"; uart_ok := true |})
           AttributeError (__init__ true true) t' /\
    _alt_flag t' = _alt_flag (__init__ true true) /\
    _last_alt t' = _last_alt (__init__ true true).
Proof.
  apply (reading_blocks_alternation
           {| i2c := RdwrData [28; 0; 0; 5; 222; 184];
              time_time := Float.of_int 30;
              strftime := "11/03 09:16:30"; uart_ok := true |}
           (__init__ true true)).
  reflexivity.
Defined.

(** C4: telemetry.  In an iteration with the serial port present and a
    sample available no line is written, however long ago the last emission
    was, so also when 30.0 seconds or more have passed: the iteration ends
    in [AttributeError] at line 181 with the device trace as it was, before
    [_uart_send] is reached.  [_uart_send] itself, when called, writes the
    line of the claim: mode name, temperature to one decimal place and
    setpoint, separated by commas and ended by a line feed. *)
Theorem telemetry_never_sent env t m :
  in_mode t m -> ser t <> None ->
  available (sample (i2c env)) ->
  (forall tr,
     iteration env {| self := t; out := tr |}
     = (Raise AttributeError, {| self := t; out := tr |})) /\
  returns (_uart_send (uart_ok env) (sample (i2c env))) t t
          [ser_write (m ++ "," ++ Float.format_1f (sample (i2c env)) ++ ","
                        ++ str_of_int (setpoint_f t) ++ newline)
                     (uart_ok env)].
Proof.
  intros H S A. split; [now apply iteration_raises|].
  eapply returns_eq; [apply (uart_send_returns t m), H|reflexivity|].
  unfold telemetry. destruct (ser t); [reflexivity|congruence].
Qed.

Lemma telemetry_never_sent_witness :
  (forall tr,
     iteration {| i2c := RdwrData [28; 0; 0; 5; 222; 184];
                  time_time := Float.of_int 30;
                  strftime := "11/03 09:16:30"; uart_ok := true |}
               {| self := set_state_idx 1 (__init__ true true); out := tr |}
     = (Raise AttributeError,
        {| self := set_state_idx 1 (__init__ true true); out := tr |})) /\
  returns (_uart_send true (sample (RdwrData [28; 0; 0; 5; 222; 184])))
          (set_state_idx 1 (__init__ true true))
          (set_state_idx 1 (__init__ true true))
          [ser_write (HEAT ++ ","
                        ++ Float.format_1f
                             (sample (RdwrData [28; 0; 0; 5; 222; 184]))
                        ++ "," ++ str_of_int 72 ++ newline)
                     true].
Proof.
  apply (telemetry_never_sent
           {| i2c := RdwrData [28; 0; 0; 5; 222; 184];
              time_time := Float.of_int 30;
              strftime := "11/03 09:16:30"; uart_ok := true |}
           (set_state_idx 1 (__init__ true true)) HEAT).
  - reflexivity.
  - discriminate.
  - reflexivity.
Defined.

(** C9: the telemetry time stamp.  In an iteration with a sample available
    the stamp is not updated, whether or not the telemetry period has
    elapsed and whether the serial write would succeed or fail: the
    iteration ends in [AttributeError] at line 181, before lines 257-259,
    and [_last_uart] stays as it was. *)
Theorem last_uart_not_advanced env t :
  available (sample (i2c env)) ->
  exists t',
    raises (iteration env) AttributeError t t' /\
    _last_uart t' = _last_uart t.
Proof.
  intros A. exists t. split; [now apply iteration_raises|reflexivity].
Qed.

Lemma last_uart_not_advanced_witness :
  exists t',
    raises (iteration {| i2c := RdwrData [28; 0; 0; 5; 222; 184];
                         time_time := Float.of_int 30;
                         strftime := "11/03 09:16:30"; uart_ok := false |})
           AttributeError (set_state_idx 1 (__init__ true true)) t' /\
    _last_uart t' = _last_uart (set_state_idx 1 (__init__ true true)).
Proof.
  apply (last_uart_not_advanced
           {| i2c := RdwrData [28; 0; 0; 5; 222; 184];
              time_time := Float.of_int 30;
              strftime := "11/03 09:16:30"; uart_ok := false |}
           (set_state_idx 1 (__init__ true true))).
  reflexivity.
Defined.

(** The failing input in numbers: HEAT, 74.1 degrees read with the clock at
    30.0 and both stamps at 0.0, serial port present.  Both period tests
    pass; the claims ask for a flipped flag, a telemetry line and a stamp of
    30.0; the iteration raises and leaves the object and the devices
    untouched. *)
Example first_reading :
  Float.format_1f (sample (RdwrData [28; 0; 0; 5; 222; 184])) = "74.1" /\
  Float.ge (Float.sub (Float.of_int 30) Float.zero) LCD_ALT_PERIOD = true /\
  Float.ge (Float.sub (Float.of_int 30) Float.zero) UART_PERIOD = true /\
  iteration {| i2c := RdwrData [28; 0; 0; 5; 222; 184];
               time_time := Float.of_int 30;
               strftime := "11/03 09:16:30"; uart_ok := true |}
            (start (set_state_idx 1 (__init__ true true)))
  = (Raise AttributeError, start (set_state_idx 1 (__init__ true true))).
Proof. repeat split. Qed.

End Loop.

(** * Whole runs *)

Section Runs.

Lemma handler_returns (h : M unit) t t' :
  returns h t t' [] -> returns (handler h) t t' [].
Proof. intros R tr. unfold handler, try_except. now rewrite R. Qed.

Lemma handler_raises (h : M unit) e t t' :
  raises h e t t' -> returns (handler h) t t' [].
Proof.
  intros R tr. unfold handler, try_except. rewrite R, app_nil_r. reflexivity.
Qed.

(** What an event does, whatever its outcome: it returns normally or ends in
    [AttributeError], and it leaves the device trace, the channels and the
    two device handles as they were. *)
Lemma dispatch_frame ev w :
  exists r w',
    dispatch ev w = (r, w') /\
    (r = Ok tt \/ r = Raise AttributeError) /\
    out w' = out w /\
    channels (self w') = channels (self w) /\
    lcd (self w') = lcd (self w) /\
    ser (self w') = ser (self w).
Proof.
  destruct w as [t tr]. destruct ev as [env| | |]; cbn [dispatch].
  - destruct (Float.isnan (sample (i2c env))) eqn:E.
    + rewrite (iteration_returns_nan env t E tr), app_nil_r.
      do 2 eexists. split; [reflexivity|]. split; [now left|].
      cbn [self out]. destruct (outage_state_frame env t) as (C & L & S & _).
      repeat split; assumption.
    + rewrite (iteration_raises env t E tr).
      do 2 eexists. split; [reflexivity|]. split; [now right|].
      repeat split.
  - rewrite (handler_raises _ _ _ _ (cycle_mode_raises t) tr), app_nil_r.
    do 2 eexists. split; [reflexivity|]. split; [now left|]. repeat split.
  - rewrite (handler_returns _ _ _ (sp_up_returns t) tr), app_nil_r.
    do 2 eexists. split; [reflexivity|]. split; [now left|]. repeat split.
  - rewrite (handler_returns _ _ _ (sp_down_returns t) tr), app_nil_r.
    do 2 eexists. split; [reflexivity|]. split; [now left|]. repeat split.
Qed.

Lemma loop_frame evs : forall w,
  exists r w',
    loop evs w = (r, w') /\
    (r = Ok tt \/ r = Raise AttributeError) /\
    out w' = out w /\
    channels (self w') = channels (self w) /\
    lcd (self w') = lcd (self w) /\
    ser (self w') = ser (self w).
Proof.
  induction evs as [|ev rest IH]; intros w.
  - exists (Ok tt), w. repeat split. now left.
  - destruct (dispatch_frame ev w) as (r1 & w1 & E1 & O1 & T1 & C1 & L1 & S1).
    cbn [loop]. unfold bind. rewrite E1.
    destruct O1 as [-> | ->].
    + destruct (IH w1) as (r2 & w2 & E2 & O2 & T2 & C2 & L2 & S2).
      exists r2, w2. split; [exact E2|]. split; [exact O2|].
      repeat split; congruence.
    + exists (Raise AttributeError), w1. split; [reflexivity|].
      split; [now right|]. repeat split; assumption.
Qed.

Lemma run_unfold evs w r w' :
  loop evs w = (r, w') -> run evs w = (Raise AttributeError, w').
Proof.
  intros E. unfold run, try_finally. rewrite E. destruct w' as [t tr].
  now rewrite (cleanup_raises t tr).
Qed.

(** The quiet events never look at the mode and never call [stop()]. *)
Lemma dispatch_quiet ev t :
  quiet ev = true ->
  exists t',
    returns (dispatch ev) t t' [] /\
    setpoint_f t'
    = setpoint_f t + (if is_press_up ev then 1 else 0)
                   - (if is_press_down ev then 1 else 0).
Proof.
  destruct ev as [env| | |]; cbn [quiet dispatch is_press_up is_press_down];
    intros Q; try discriminate.
  - eexists. split; [now apply iteration_returns_nan|].
    destruct (outage_state_frame env t) as (_ & _ & _ & _ & -> & _). lia.
  - eexists. split; [apply handler_returns, sp_up_returns|]. cbn. lia.
  - eexists. split; [apply handler_returns, sp_down_returns|]. cbn. lia.
Qed.

(** X1: the setpoint after a run without [stop()].  For every sequence of
    iterations whose reads fail and of presses of the setpoint buttons, from
    every object, the loop returns normally without device I/O and the
    setpoint is the starting one plus the number of presses of the up
    button minus the number of presses of the down button: nothing else
    writes it, and nothing bounds it. *)
Theorem setpoint_after_run evs : forall t,
  forallb quiet evs = true ->
  exists t',
    returns (loop evs) t t' [] /\
    setpoint_f t'
    = setpoint_f t + Z.of_nat (count is_press_up evs)
                   - Z.of_nat (count is_press_down evs).
Proof.
  induction evs as [|ev rest IH]; intros t Q.
  - exists t. split; [apply returns_pass|]. cbn. lia.
  - cbn [forallb] in Q. apply andb_true_iff in Q. destruct Q as [Q1 Q2].
    destruct (dispatch_quiet ev t Q1) as (t1 & R1 & S1).
    destruct (IH t1 Q2) as (t2 & R2 & S2).
    exists t2. split.
    + cbn [loop]. apply (returns_bind _ _ t t1 t2 [] []); assumption.
    + rewrite S2, S1. unfold count. cbn [filter].
      destruct ev; cbn [is_press_up is_press_down List.length]; lia.
Qed.

Lemma setpoint_after_run_witness :
  exists t',
    returns (loop [PressUp;
                   Iteration {| i2c := RdwrFault; time_time := Float.of_int 5;
                                strftime := ""; uart_ok := true |};
                   PressDown; PressDown])
            (__init__ true true) t' [] /\
    setpoint_f t'
    = setpoint_f (__init__ true true)
      + Z.of_nat (count is_press_up
                    [PressUp;
                     Iteration {| i2c := RdwrFault;
                                  time_time := Float.of_int 5;
                                  strftime := ""; uart_ok := true |};
                     PressDown; PressDown])
      - Z.of_nat (count is_press_down
                    [PressUp;
                     Iteration {| i2c := RdwrFault;
                                  time_time := Float.of_int 5;
                                  strftime := ""; uart_ok := true |};
                     PressDown; PressDown]).
Proof.
  apply (setpoint_after_run
           [PressUp;
            Iteration {| i2c := RdwrFault; time_time := Float.of_int 5;
                         strftime := ""; uart_ok := true |};
            PressDown; PressDown] (__init__ true true)).
  reflexivity.
Defined.

(** X21: the first successful read ends the loop.  In every run that holds
    an iteration whose sensor read succeeds, from every machine state, the
    loop ends in [AttributeError], and the events after that iteration are
    never processed. *)
Theorem reading_ends_loop pre env post w :
  available (sample (i2c env)) ->
  fst (loop (pre ++ Iteration env :: post) w) = Raise AttributeError /\
  loop (pre ++ Iteration env :: post) w = loop (pre ++ [Iteration env]) w.
Proof.
  intros A. revert w. induction pre as [|ev pre IH]; intros [t tr].
  - cbn [app loop dispatch]. unfold bind.
    rewrite (iteration_raises env t A tr). split; reflexivity.
  - cbn [app loop]. unfold bind.
    destruct (dispatch_frame ev {| self := t; out := tr |})
      as (r1 & w1 & E1 & [-> | ->] & _).
    + rewrite E1. apply IH.
    + rewrite E1. split; reflexivity.
Qed.

Lemma reading_ends_loop_witness :
  fst (loop ([PressUp]
             ++ Iteration {| i2c := RdwrData [28; 0; 0; 5; 222; 184];
                             time_time := Float.of_int 30;
                             strftime := "11/03 09:16:30";
                             uart_ok := true |}
             :: [PressDown])
            (start (__init__ true true))) = Raise AttributeError /\
  loop ([PressUp]
        ++ Iteration {| i2c := RdwrData [28; 0; 0; 5; 222; 184];
                        time_time := Float.of_int 30;
                        strftime := "11/03 09:16:30"; uart_ok := true |}
        :: [PressDown])
       (start (__init__ true true))
  = loop ([PressUp]
          ++ [Iteration {| i2c := RdwrData [28; 0; 0; 5; 222; 184];
                           time_time := Float.of_int 30;
                           strftime := "11/03 09:16:30";
                           uart_ok := true |}])
         (start (__init__ true true)).
Proof.
  apply (reading_ends_loop [PressUp]
           {| i2c := RdwrData [28; 0; 0; 5; 222; 184];
              time_time := Float.of_int 30;
              strftime := "11/03 09:16:30"; uart_ok := true |}
           [PressDown] (start (__init__ true true))).
  reflexivity.
Defined.

(** X3: the [finally:] block never cleans up.  From every machine state,
    whatever the loop did and however it ended, [run] ends in
    [AttributeError], raised by the first statement of the block (line
    266), and the machine is left as the loop left it: the channels are not
    switched off, the display is not cleared, the bus and the serial port
    are not closed. *)
Theorem run_cleanup_aborts evs w :
  exists r w1,
    loop evs w = (r, w1) /\
    run evs w = (Raise AttributeError, w1).
Proof.
  destruct (loop evs w) as [r w1] eqn:E. exists r, w1.
  split; [reflexivity|]. now apply (run_unfold evs w r w1).
Qed.

(** X5: the channels never change.  Over a whole run, cleanup included,
    from every machine state and for every sequence of events, both LED
    channels end as they started; started from [__init__], both are off at
    the end, whatever the mode, the setpoint and the readings. *)
Theorem run_keeps_channels evs :
  (forall w, channels (self (snd (run evs w))) = channels (self w)) /\
  (forall lcd_ok ser_ok,
     channels (self (snd (run evs (start (__init__ lcd_ok ser_ok)))))
     = (Off, Off)).
Proof.
  assert (K : forall w, channels (self (snd (run evs w))) = channels (self w)).
  { intros w. destruct (loop_frame evs w) as (r & w' & E & _ & _ & C & _).
    now rewrite (run_unfold evs w r w' E). }
  split; [exact K|]. intros lcd_ok ser_ok. now rewrite K.
Qed.

(** X6: no device is ever used.  Over a whole run, cleanup included, from
    every machine state and for every sequence of events, nothing is added
    to the device trace: no line is written to the display, no telemetry
    line is sent, and neither the display, the bus nor the serial port is
    cleared or closed. *)
Theorem run_no_device_io evs w :
  out (snd (run evs w)) = out w.
Proof.
  destruct (loop_frame evs w) as (r & w' & E & _ & T & _).
  now rewrite (run_unfold evs w r w' E).
Qed.

(** X8: the mode button repairs the index.  From every object, whatever its
    index (even one for which the [state] property raises), [_cycle_mode]
    leaves an index in 0..2, hence an object in a mode, before it ends in
    [AttributeError] at line 146; it performs no device I/O and leaves the
    channels as they were. *)
Theorem cycle_mode_repairs_index t :
  exists t',
    raises _cycle_mode AttributeError t t' /\
    0 <= state_idx t' <= 2 /\
    (exists m', in_mode t' m') /\
    channels t' = channels t.
Proof.
  exists (cycled t). split; [apply cycle_mode_raises|].
  split; [|split; [apply cycled_in_mode|reflexivity]].
  cbn. pose proof (Z.mod_pos_bound (state_idx t + 1) 3). lia.
Qed.

End Runs.

(** * The display *)

Section Display.

Lemma length_append a b :
  String.length (a ++ b) = (String.length a + String.length b)%nat.
Proof. induction a as [|c a IH]; cbn; [reflexivity|now rewrite IH]. Qed.

Lemma length_spaces n : String.length (spaces n) = n.
Proof. induction n as [|n IH]; cbn; [reflexivity|now rewrite IH]. Qed.

Lemma length_str_take s : forall n,
  String.length (str_take n s) = Nat.min n (String.length s).
Proof.
  unfold str_take. induction s as [|c s IH]; intros [|n]; cbn; try reflexivity.
  now rewrite IH.
Qed.

Lemma str_take_all s : forall n,
  (String.length s <= n)%nat -> str_take n s = s.
Proof.
  unfold str_take. induction s as [|c s IH]; intros [|n] H; cbn in *;
    try reflexivity; try lia.
  rewrite IH by lia. reflexivity.
Qed.

Lemma length_rjust n s :
  String.length (rjust n s) = Nat.max n (String.length s).
Proof. unfold rjust. rewrite length_append, length_spaces. lia. Qed.

Lemma append_nil_r s : s ++ "" = s.
Proof. induction s as [|c s IH]; cbn; [reflexivity|now rewrite IH]. Qed.

Lemma lcd_line_shows line :
  shows (ljust LCD_COLS (str_take LCD_COLS line)) line.
Proof.
  unfold shows, ljust. split; [|split].
  - rewrite length_append, length_spaces, length_str_take. lia.
  - intros H. now rewrite str_take_all by exact H.
  - intros H. rewrite length_str_take.
    replace (LCD_COLS - Nat.min LCD_COLS (String.length line))%nat
      with 0%nat by lia.
    apply append_nil_r.
Qed.

(** X10: [_lcd_write] always sends full-width lines.  With a display, the
    call returns normally after homing the cursor and writing two strings
    of exactly 16 characters, each showing its line: the line followed by
    spaces when it has at most 16 characters, its first 16 characters
    otherwise. *)
Theorem lcd_write_full_width line1 line2 t :
  lcd t <> None ->
  exists s1 s2,
    returns (_lcd_write line1 line2) t t
            [lcd_home; lcd_write_string s1; lcd_crlf; lcd_write_string s2] /\
    shows s1 line1 /\ shows s2 line2.
Proof.
  intros L.
  exists (ljust LCD_COLS (str_take LCD_COLS line1)),
         (ljust LCD_COLS (str_take LCD_COLS line2)).
  split; [|split; apply lcd_line_shows].
  eapply returns_eq; [apply lcd_write_returns| reflexivity|].
  unfold lcd_frame. destruct (lcd t); [reflexivity|congruence].
Qed.

Lemma lcd_write_full_width_witness :
  exists s1 s2,
    returns (_lcd_write "11/03 09:16:01" "a line longer than the display")
            (__init__ true true) (__init__ true true)
            [lcd_home; lcd_write_string s1; lcd_crlf; lcd_write_string s2] /\
    shows s1 "11/03 09:16:01" /\ shows s2 "a line longer than the display".
Proof.
  apply (lcd_write_full_width "11/03 09:16:01"
           "a line longer than the display" (__init__ true true)).
  discriminate.
Defined.

End Display.

(** * Readings and their fields on the display *)

Section Readings.

Lemma sample_raw data :
  List.length data = 6%nat ->
  sample (RdwrData data)
  = norm (-20) (tmp_raw_of (nth 3 data 0) (nth 4 data 0) (nth 5 data 0) * 360
                - 60817408).
Proof.
  intros L. unfold sample, _aht20_read_celsius. rewrite L. cbn [Nat.eqb negb].
  apply fahrenheit_of_raw_norm, tmp_raw_of_range.
Qed.

Lemma sample_norm data :
  List.length data = 6%nat ->
  exists raw, 0 <= raw < 2 ^ 20 /\
    sample (RdwrData data) = norm (-20) (raw * 360 - 60817408).
Proof.
  intros L. eexists. split; [apply tmp_raw_of_range|]. now apply sample_raw.
Qed.

Lemma norm_20_cases z :
  - 2 ^ 29 < z < 2 ^ 29 ->
  (z = 0 /\ norm (-20) z = S754_zero false) \/
  (exists s x, z = cond_Zopp s (Zpos x) /\ norm (-20) z = canon s x (-20)).
Proof.
  intros H. destruct z as [|x|x].
  - left. split; reflexivity.
  - right. exists false, x. split; [reflexivity|].
    pose proof (digits2_le x 29 ltac:(lia) ltac:(lia)).
    apply norm_pos; lia.
  - right. exists true, x. split; [reflexivity|].
    pose proof (digits2_le x 29 ltac:(lia) ltac:(lia)).
    apply norm_neg; lia.
Qed.

Lemma norm_20_finite z :
  - 2 ^ 29 < z < 2 ^ 29 -> Float.is_finite (norm (-20) z) = true.
Proof.
  intros H. destruct (norm_20_cases z H) as [[_ ->]|(s & x & _ & ->)];
    reflexivity.
Qed.

Lemma finite_AtLeast x k :
  Float.is_finite x = true ->
  (Float.AtLeast x k <-> (inject_Z k <= Float.to_Q x)%Q).
Proof. destruct x; cbn; try discriminate; reflexivity. Qed.

Lemma finite_Above x k :
  Float.is_finite x = true ->
  (Float.Above x k <-> (inject_Z k < Float.to_Q x)%Q).
Proof. destruct x; cbn; try discriminate; reflexivity. Qed.

Lemma finite_Below x k :
  Float.is_finite x = true ->
  (Float.Below x k <-> (Float.to_Q x < inject_Z k)%Q).
Proof. destruct x; cbn; try discriminate; reflexivity. Qed.

(** X13: the range of the readings.  Whatever six bytes the sensor returns,
    the Fahrenheit sample of the loop is a finite number, at least -58 and
    below 302 (the sensor's -50..150 degrees Celsius): no payload yields
    NaN, an infinity or a value outside this range. *)
Theorem sample_range data :
  List.length data = 6%nat ->
  Float.is_finite (sample (RdwrData data)) = true /\
  Float.AtLeast (sample (RdwrData data)) (-58) /\
  Float.Below (sample (RdwrData data)) 302.
Proof.
  intros L. destruct (sample_norm data L) as (raw & R & ->).
  assert (F : Float.is_finite (norm (-20) (raw * 360 - 60817408)) = true)
    by (apply norm_20_finite; lia).
  split; [exact F|].
  rewrite finite_AtLeast, finite_Below by exact F.
  rewrite norm_value_20 by lia.
  unfold Qle, Qlt, inject_Z; cbn [Qnum Qden]. lia.
Qed.

Lemma sample_range_witness :
  Float.is_finite (sample (RdwrData [28; 0; 0; 5; 222; 184])) = true /\
  Float.AtLeast (sample (RdwrData [28; 0; 0; 5; 222; 184])) (-58) /\
  Float.Below (sample (RdwrData [28; 0; 0; 5; 222; 184])) 302.
Proof. apply (sample_range [28; 0; 0; 5; 222; 184]). reflexivity. Defined.

(** X14: the NaN sentinel is sound.  The read of one iteration never raises
    and leaves the machine as it was; the value it hands to the loop is NaN
    exactly when the sensor read failed, that is, on a bus error or a
    payload that is not six bytes long: the conversion of a payload never
    produces the sentinel. *)
Theorem nan_sentinel_sound bus w :
  exists temp_f,
    read_temp_f bus w = (Ok temp_f, w) /\
    (Float.isnan temp_f = true <-> read_fails bus) /\
    (Float.isnan temp_f = true <->
     bus = WriteFault \/ bus = RdwrFault \/
     exists data, bus = RdwrData data /\ List.length data <> 6%nat).
Proof.
  exists (sample bus). split; [apply read_temp_f_returns|].
  split; [apply sample_nan_iff|].
  rewrite sample_nan_iff. apply read_fails_iff.
Qed.

(** X15: the comparisons of the actuator as tests on the raw sensor field.
    For a sample converted from six bytes, with [raw] the 20-bit temperature
    field, the comparisons [current_temp_f < self.setpoint_f] (line 183) and
    [current_temp_f > self.setpoint_f] (line 189) are the integer
    comparisons of [raw * 360] with [(setpoint + 58) * 2^20]: no rounding
    in the conversion moves the threshold. *)
Theorem compare_by_raw_field data setpoint :
  List.length data = 6%nat ->
  let raw := tmp_raw_of (nth 3 data 0) (nth 4 data 0) (nth 5 data 0) in
  let threshold := (setpoint + 58) * 2 ^ 20 in
  Float.lt_int (sample (RdwrData data)) setpoint = (raw * 360 <? threshold) /\
  Float.gt_int (sample (RdwrData data)) setpoint = (threshold <? raw * 360).
Proof.
  intros L raw threshold.
  destruct (sample_range data L) as (F & _ & _).
  assert (V : (Float.to_Q (sample (RdwrData data))
               == (raw * 360 - 60817408) # 1048576)%Q).
  { rewrite (sample_raw data L). apply norm_value_20.
    pose proof (tmp_raw_of_range (nth 3 data 0) (nth 4 data 0)
                  (nth 5 data 0)) as B. fold raw in B. lia. }
  split; apply Bool.eq_iff_eq_true.
  - rewrite lt_int_iff, finite_Below, V, Z.ltb_lt by exact F.
    unfold Qlt, inject_Z, threshold; cbn [Qnum Qden].
    change (2 ^ 20) with 1048576. lia.
  - rewrite gt_int_iff, finite_Above, V, Z.ltb_lt by exact F.
    unfold Qlt, inject_Z, threshold; cbn [Qnum Qden].
    change (2 ^ 20) with 1048576. lia.
Qed.

Lemma compare_by_raw_field_witness :
  let raw := tmp_raw_of (nth 3 [28; 0; 0; 5; 222; 184] 0)
                        (nth 4 [28; 0; 0; 5; 222; 184] 0)
                        (nth 5 [28; 0; 0; 5; 222; 184] 0) in
  let threshold := (72 + 58) * 2 ^ 20 in
  Float.lt_int (sample (RdwrData [28; 0; 0; 5; 222; 184])) 72
  = (raw * 360 <? threshold) /\
  Float.gt_int (sample (RdwrData [28; 0; 0; 5; 222; 184])) 72
  = (threshold <? raw * 360).
Proof.
  apply (compare_by_raw_field [28; 0; 0; 5; 222; 184] 72). reflexivity.
Defined.

(** ** Field widths *)

Lemma all_from_spec f n : forall from,
  all_from f from n = true ->
  forall z, from <= z < from + Z.of_nat n -> f z = true.
Proof.
  induction n as [|n IH]; intros from A z Hz; [lia|].
  cbn [all_from] in A. apply andb_true_iff in A. destruct A as [A1 A2].
  destruct (Z.eq_dec z from) as [->|N]; [exact A1|].
  apply (IH (from + 1) A2). lia.
Qed.

Lemma length_digit z :
  0 <= z <= 9 -> String.length (str_of_int z) = 1%nat.
Proof.
  intros H. apply Nat.eqb_eq.
  apply (all_from_spec (fun z => Nat.eqb (String.length (str_of_int z)) 1)
           10 0); [reflexivity|lia].
Qed.

Lemma length_upto_302 z :
  0 <= z <= 302 -> (String.length (str_of_int z) <= 3)%nat.
Proof.
  intros H. apply Nat.leb_le.
  apply (all_from_spec (fun z => Nat.leb (String.length (str_of_int z)) 3)
           303 0); [vm_compute; reflexivity|lia].
Qed.

Lemma length_upto_58 z :
  0 <= z <= 58 -> (String.length (str_of_int z) <= 2)%nat.
Proof.
  intros H. apply Nat.leb_le.
  apply (all_from_spec (fun z => Nat.leb (String.length (str_of_int z)) 2)
           59 0); [vm_compute; reflexivity|lia].
Qed.

Lemma length_setpoint_field z :
  -99 <= z <= 999 -> String.length (rjust 3 (str_of_int z)) = 3%nat.
Proof.
  intros H. apply Nat.eqb_eq.
  apply (all_from_spec
           (fun z => Nat.eqb (String.length (rjust 3 (str_of_int z))) 3)
           1099 (-99)); [vm_compute; reflexivity|lia].
Qed.

(** The tenths printed for a number of the grid 2^-20 are within one half
    of ten times the number. *)
Lemma tenths_canon x :
  Zpos x < 2 ^ 29 ->
  2 * Z.abs (Float.tenths (shl x (53 - Zpos (digits2_pos x)))
                          (-20 + Zpos (digits2_pos x) - 53) * 2 ^ 20
             - Zpos x * 10) <= 2 ^ 20.
Proof.
  intros H. pose proof (digits2_le x 29 ltac:(lia) H) as D.
  set (d := Zpos (digits2_pos x)) in *.
  assert (1 <= d) by (unfold d; lia).
  destruct (-20 + d - 53) as [|p|p] eqn:E; try lia.
  cbn [Float.tenths]. rewrite pow_pos_Zpos.
  pose proof (round_half_even_nearest (Zpos (shl x (53 - d)) * 10)
                (Zpos (2 ^ p)) ltac:(lia)) as R.
  rewrite shl_Z in * by lia.
  rewrite Pos2Z.inj_pow in *.
  assert (P : 2 ^ Zpos p = 2 ^ (53 - d) * 2 ^ 20).
  { replace (Zpos p) with (53 - d + 20) by lia.
    now rewrite Z.pow_add_r by lia. }
  change (Z.pos 2) with 2 in *. rewrite P in *.
  assert (K : 0 < 2 ^ (53 - d)) by (apply Z.pow_pos_nonneg; lia).
  set (k := 2 ^ (53 - d)) in *.
  set (t := Float.round_half_even (Zpos x * k * 10) (k * 2 ^ 20)) in *.
  change (2 ^ 20) with 1048576 in *. nia.
Qed.

Lemma format_canon_length s x :
  Zpos x < 316669952 -> (s = true -> Zpos x <= 60817408) ->
  (String.length (Float.format_1f (canon s x (-20))) <= 5)%nat.
Proof.
  intros H Hs. pose proof (tenths_canon x ltac:(lia)) as T.
  unfold canon. change Float.prec with 53. cbn [Float.format_1f].
  set (t := Float.tenths _ _) in *.
  change (2 ^ 20) with 1048576 in T.
  rewrite !length_append.
  assert (0 <= t <= 3020) by lia.
  pose proof (Z.mod_pos_bound t 10 ltac:(lia)).
  rewrite (length_digit (t mod 10)) by lia.
  destruct s.
  - specialize (Hs eq_refl). assert (0 <= t <= 580) by lia.
    pose proof (length_upto_58 (t / 10)
                  ltac:(split; [apply Z.div_pos; lia
                               |apply Z.div_le_upper_bound; lia])).
    cbn [String.length]. lia.
  - pose proof (length_upto_302 (t / 10)
                  ltac:(split; [apply Z.div_pos; lia
                               |apply Z.div_le_upper_bound; lia])).
    cbn [String.length]. lia.
Qed.

Lemma format_sample_length data :
  List.length data = 6%nat ->
  (String.length (Float.format_1f (sample (RdwrData data))) <= 5)%nat.
Proof.
  intros L. destruct (sample_norm data L) as (raw & R & ->).
  destruct (norm_20_cases (raw * 360 - 60817408) ltac:(lia))
    as [[_ ->]|(s & x & E & ->)].
  - cbn. lia.
  - apply format_canon_length; destruct s; cbn [cond_Zopp] in E; lia.
Qed.

Lemma append_assoc (a b c : string) : (a ++ b) ++ c = a ++ b ++ c.
Proof. induction a as [|x a IH]; cbn; [reflexivity|now rewrite IH]. Qed.

Lemma lcd_line_fits line :
  (String.length line <= LCD_COLS)%nat ->
  ljust LCD_COLS (str_take LCD_COLS line)
  = line ++ spaces (LCD_COLS - String.length line).
Proof. apply lcd_line_shows. Qed.

(** X16: the temperature view always fits.  With a display, for whatever
    six bytes the sensor returned, the temperature view of [_update_lcd]
    prints the reading in a field of exactly five characters, so line 2 is
    ["T:"], the field, ["F"] and eight spaces: nothing is cut off and the
    columns never move. *)
Theorem temperature_view_fits data t m now :
  in_mode t m -> lcd t <> None -> _alt_flag t = false ->
  List.length data = 6%nat ->
  exists field,
    field = rjust 5 (Float.format_1f (sample (RdwrData data))) /\
    String.length field = 5%nat /\
    returns (_update_lcd now (sample (RdwrData data))) t t
            [lcd_home;
             lcd_write_string (ljust LCD_COLS (str_take LCD_COLS now));
             lcd_crlf;
             lcd_write_string ("T:" ++ field ++ "F" ++ spaces 8)].
Proof.
  intros H L A D. eexists. split; [reflexivity|].
  pose proof (format_sample_length data D) as F.
  assert (W : String.length
                (rjust 5 (Float.format_1f (sample (RdwrData data)))) = 5%nat)
    by (rewrite length_rjust; lia).
  split; [exact W|].
  eapply returns_eq; [apply (update_lcd_returns t m), H|reflexivity|].
  unfold lcd_frame, line2_of. rewrite A. cbn [negb].
  destruct (lcd t); [|congruence].
  rewrite (lcd_line_fits ("T:" ++ _)).
  - rewrite !length_append, W. cbn [String.length Nat.add].
    change (LCD_COLS - 8)%nat with 8%nat.
    now rewrite !append_assoc.
  - rewrite !length_append, W. cbn [String.length]. unfold LCD_COLS. lia.
Qed.

Lemma temperature_view_fits_witness :
  exists field,
    field = rjust 5 (Float.format_1f
                       (sample (RdwrData [28; 0; 0; 5; 222; 184]))) /\
    String.length field = 5%nat /\
    returns (_update_lcd "11/03 09:16:01"
               (sample (RdwrData [28; 0; 0; 5; 222; 184])))
            (__init__ true true) (__init__ true true)
            [lcd_home;
             lcd_write_string
               (ljust LCD_COLS (str_take LCD_COLS "11/03 09:16:01"));
             lcd_crlf;
             lcd_write_string ("T:" ++ field ++ "F" ++ spaces 8)].
Proof.
  apply (temperature_view_fits [28; 0; 0; 5; 222; 184] (__init__ true true)
           OFF "11/03 09:16:01").
  - reflexivity.
  - discriminate.
  - reflexivity.
  - reflexivity.
Defined.

(** X17: the setpoint view fits for setpoints of up to three characters.
    With a display, for a setpoint from -99 to 999 the setpoint view of
    [_update_lcd] prints the setpoint in a field of exactly three
    characters, so line 2 is the mode label, [" SP:"], the field, ["F"] and
    spaces up to column 16; nothing is cut off. *)
Theorem setpoint_view_fits t m now temp :
  in_mode t m -> lcd t <> None -> _alt_flag t = true ->
  -99 <= setpoint_f t <= 999 ->
  exists field,
    field = rjust 3 (str_of_int (setpoint_f t)) /\
    String.length field = 3%nat /\
    returns (_update_lcd now temp) t t
            [lcd_home;
             lcd_write_string (ljust LCD_COLS (str_take LCD_COLS now));
             lcd_crlf;
             lcd_write_string
               (label_of m ++ " SP:" ++ field ++ "F"
                  ++ spaces (8 - String.length (label_of m)))].
Proof.
  intros H L A S. eexists. split; [reflexivity|].
  pose proof (length_setpoint_field (setpoint_f t) S) as W.
  split; [exact W|].
  eapply returns_eq; [apply (update_lcd_returns t m), H|reflexivity|].
  unfold lcd_frame, line2_of. rewrite A. cbn [negb].
  destruct (lcd t); [|congruence].
  assert (B : (String.length (label_of m) <= 4)%nat)
    by (destruct (in_mode_cases t m H) as [->|[->| ->]]; cbn; lia).
  rewrite (lcd_line_fits (label_of m ++ _)).
  - rewrite !length_append, W. cbn [String.length].
    replace (LCD_COLS - (String.length (label_of m) + (4 + (3 + 1))))%nat
      with (8 - String.length (label_of m))%nat by (unfold LCD_COLS; lia).
    now rewrite !append_assoc.
  - rewrite !length_append, W. cbn [String.length]. unfold LCD_COLS. lia.
Qed.

Lemma setpoint_view_fits_witness :
  exists field,
    field = rjust 3 (str_of_int
                       (setpoint_f (set_alt_flag true (__init__ true true)))) /\
    String.length field = 3%nat /\
    returns (_update_lcd "11/03 09:16:03" (Float.of_int 70))
            (set_alt_flag true (__init__ true true))
            (set_alt_flag true (__init__ true true))
            [lcd_home;
             lcd_write_string
               (ljust LCD_COLS (str_take LCD_COLS "11/03 09:16:03"));
             lcd_crlf;
             lcd_write_string
               (label_of OFF ++ " SP:" ++ field ++ "F"
                  ++ spaces (8 - String.length (label_of OFF)))].
Proof.
  apply (setpoint_view_fits (set_alt_flag true (__init__ true true)) OFF
           "11/03 09:16:03" (Float.of_int 70)).
  - reflexivity.
  - discriminate.
  - reflexivity.
  - change (setpoint_f (set_alt_flag true (__init__ true true))) with 72.
    lia.
Defined.


End Readings.

(** * The period tests on clock readings *)

Section Timers.

(** X18: the period tests as binary64 computes them.  For clock readings
    and stamps on the grid of 2^-22 s (the doubles from 2^30 to 2^31, where
    [time.time()] lies, and [0.0]), the loop's tests [now - last >= 2.0]
    and [now - last >= 30.0], evaluated on floats, give the answers of the
    tests on the exact readings: the subtraction does not round. *)
Theorem period_tests_binary64 ka kl ku env t temp :
  0 <= ka < 2 ^ 53 -> 0 <= kl < 2 ^ 53 -> 0 <= ku < 2 ^ 53 ->
  time_time env = clock_reading ka ->
  _last_alt t = clock_reading kl ->
  _last_uart t = clock_reading ku ->
  alt_due env t
  = Qle_bool 2 (clock_seconds ka - clock_seconds kl) /\
  uart_due env t temp
  = Qle_bool 30 (clock_seconds ka - clock_seconds ku)
    && negb (Float.isnan temp).
Proof.
  intros Ha Hl Hu En El Eu. unfold alt_due, uart_due.
  rewrite En, El, Eu.
  change (Float.ge (Float.sub (clock_reading ka) (clock_reading kl))
            LCD_ALT_PERIOD)
    with (float_period_test (clock_reading ka) (clock_reading kl) 2).
  change (Float.ge (Float.sub (clock_reading ka) (clock_reading ku))
            UART_PERIOD)
    with (float_period_test (clock_reading ka) (clock_reading ku) 30).
  rewrite !float_period_test_exact by lia.
  split; reflexivity.
Qed.

Lemma period_tests_binary64_witness :
  let env := {| i2c := RdwrFault;
                time_time := clock_reading (1762161361 * 2 ^ 22 + 1);
                strftime := "11/03 09:16:01"; uart_ok := true |} in
  let t := set_last_alt (clock_reading (1762161359 * 2 ^ 22 + 3))
             (__init__ true true) in
  alt_due env t
  = Qle_bool 2 (clock_seconds (1762161361 * 2 ^ 22 + 1)
                - clock_seconds (1762161359 * 2 ^ 22 + 3)) /\
  uart_due env t (Float.of_int 70)
  = Qle_bool 30 (clock_seconds (1762161361 * 2 ^ 22 + 1) - clock_seconds 0)
    && negb (Float.isnan (Float.of_int 70)).
Proof.
  intros env t.
  apply (period_tests_binary64 (1762161361 * 2 ^ 22 + 1)
           (1762161359 * 2 ^ 22 + 3) 0 env t (Float.of_int 70));
    try lia; reflexivity.
Defined.

(** X22: no rounding hides an elapsed period.  For valid finite readings of
    the clock and a period of a whole number of seconds, such as the 2.0 and
    30.0 of the loop, whenever the numbers that the readings denote lie the
    period or more apart, the loop's test [now - last >= PERIOD] on floats
    passes: the display alternation and the telemetry are never late
    because of rounding. *)
Theorem period_never_missed now last period :
  0 < period < 2 ^ 53 ->
  exact_elapsed now last period ->
  Float.ge (Float.sub now last) (Float.of_int period) = true.
Proof.
  intros P (Vn & Vl & Fn & Fl & Q). now apply sub_ge_exact.
Qed.

Lemma period_never_missed_witness :
  Float.ge (Float.sub (Float.of_int 1762161361) (Float.of_int 1762161359))
           (Float.of_int 2) = true.
Proof.
  apply (period_never_missed (Float.of_int 1762161361)
           (Float.of_int 1762161359) 2).
  - lia.
  - repeat split; try reflexivity. unfold Qle; simpl; lia.
Defined.

(** The converse does not hold: the doubles nearest to 2.15 and 0.15 lie
    less than 2 apart, and their binary64 difference is 2.0. *)
Example rounding_passes_early :
  let now := Float.div (Float.of_int 215) (Float.of_int 100) in
  let last := Float.div (Float.of_int 15) (Float.of_int 100) in
  Float.ge (Float.sub now last) LCD_ALT_PERIOD = true /\
  (Float.to_Q now - Float.to_Q last < 2)%Q.
Proof. split; reflexivity. Qed.

End Timers.
